(** * YES24 metadata source for calibre: a shallow embedding

    The plugin has two source files.

    - [__init__.py] holds the class [YES24]: it builds the search URL
      ([_create_query]), reads the candidate detail pages out of the result
      listing ([_parse_search_results]), starts one [Worker] per candidate and
      polls them ([identify]), and looks covers up in two caches
      ([get_cached_cover_url]).
    - [worker.py] holds the thread class [Worker]: [run], [get_details],
      [parse_details] and the field parsers.

    Text is modelled as lists of code points, Python exceptions as an error
    result, and the objects that the methods mutate (the worker itself, the
    log, the result queue, the plugin's caches) as an explicit state that is
    threaded through a small state-and-exception monad. *)

From Stdlib Require Import ZArith NArith QArith Lia.
From stdpp Require Import base option list strings gmap.

Local Open Scope N_scope.

(** ** Text *)

(** A Python 2 [unicode] object: a sequence of code points. *)
Abbreviation unicode := (list N).

(** A Python 2 [str] object: a sequence of bytes, each below 256. *)
Abbreviation bytes := (list N).

(** A string literal of the source, read as ASCII. *)
Definition u (s : string) : unicode :=
  (fun a => Ascii.N_of_ascii a) <$> String.list_ascii_of_string s.
Arguments u : simpl never.

(** [isinstance(t, unicode)] needs both kinds of [basestring]. *)
Inductive basestring :=
  | Str (b : bytes)
  | Unicode (t : unicode).

(** [unicode.isspace] per code point in CPython 2.7 (unicodectype.c). *)
Definition Py_UNICODE_ISSPACE (c : N) : bool :=
  (9 <=? c) && (c <=? 13) || (28 <=? c) && (c <=? 32)
  || (c =? 133) || (c =? 160) || (c =? 5760) || (c =? 6158)
  || (8192 <=? c) && (c <=? 8202) || (c =? 8232) || (c =? 8233)
  || (c =? 8239) || (c =? 8287) || (c =? 12288).

(** [str.isspace] per byte: space, tab, newline, return, VT, FF. *)
Definition Py_ISSPACE (c : N) : bool :=
  (9 <=? c) && (c <=? 13) || (c =? 32).

Fixpoint lstrip (sp : N -> bool) (s : list N) : list N :=
  match s with
  | c :: s' => if sp c then lstrip sp s' else s
  | [] => []
  end.

Definition rstrip (sp : N -> bool) (s : list N) : list N :=
  rev (lstrip sp (rev s)).

(** [s.strip()] on a [unicode] object. *)
Definition strip (s : unicode) : unicode :=
  rstrip Py_UNICODE_ISSPACE (lstrip Py_UNICODE_ISSPACE s).

(** [s.strip()] on a [str] object. *)
Definition strip_bytes (s : bytes) : bytes :=
  rstrip Py_ISSPACE (lstrip Py_ISSPACE s).

(** [s.startswith(p)]. *)
Fixpoint startswith (p s : list N) : bool :=
  match p, s with
  | [], _ => true
  | a :: p', b :: s' => (a =? b) && startswith p' s'
  | _ :: _, [] => false
  end.

(** [s.endswith(p)]. *)
Definition endswith (p s : list N) : bool :=
  startswith (rev p) (rev s).

(** [p in s]. *)
Fixpoint contains (p s : list N) : bool :=
  startswith p s ||
  match s with
  | [] => false
  | _ :: s' => contains p s'
  end.

(** [s.split(sep)] for a separator of one character: every occurrence
    cuts, so the result has one piece more than there are separators. *)
Fixpoint split (sep : N) (s : list N) : list (list N) :=
  match s with
  | [] => [[]]
  | c :: s' =>
      if c =? sep then [] :: split sep s'
      else match split sep s' with
           | p :: ps => (c :: p) :: ps
           | [] => [[c]]
           end
  end.

(** The text before and after the first [sep], when there is one. *)
Fixpoint partition (sep : N) (s : list N) : option (list N * list N) :=
  match s with
  | [] => None
  | c :: s' =>
      if c =? sep then Some ([], s')
      else match partition sep s' with
           | Some (a, b) => Some (c :: a, b)
           | None => None
           end
  end.

(** [s.rsplit(sep, 1)]: cut once, at the last occurrence. *)
Definition rsplit1 (sep : N) (s : list N) : list (list N) :=
  match partition sep (rev s) with
  | Some (a, b) => [rev b; rev a]
  | None => [s]
  end.

(** [sep.join(pieces)]. *)
Fixpoint join (sep : list N) (pieces : list (list N)) : list N :=
  match pieces with
  | [] => []
  | [p] => p
  | p :: ps => p ++ sep ++ join sep ps
  end.

(** The scan of [s.replace(old, new)] for a non-empty [old]: [skip] counts
    the characters of a match that are still to be dropped. *)
Fixpoint replace_scan (old new : list N) (s : list N) (skip : nat) : list N :=
  match s with
  | [] => []
  | c :: s' =>
      match skip with
      | S k => replace_scan old new s' k
      | O =>
          if startswith old s
          then new ++ replace_scan old new s' (length old - 1)%nat
          else c :: replace_scan old new s' O
      end
  end.

(** [s.replace(old, new)]: all occurrences, left to right, not overlapping.
    An empty [old] matches before every character and at the end. *)
Definition replace (old new : list N) (s : list N) : list N :=
  match old with
  | [] => new ++ concat ((fun c => c :: new) <$> s)
  | _ :: _ => replace_scan old new s O
  end.

Definition is_digit (c : N) : bool := (48 <=? c) && (c <=? 57).

(** The longest run of [0-9] at the front of [s], and what follows it. *)
Fixpoint span_digits (s : list N) : list N * list N :=
  match s with
  | c :: s' =>
      if is_digit c
      then let '(d, r) := span_digits s' in (c :: d, r)
      else ([], s)
  | [] => ([], [])
  end.

(** [int(s)] for a string of decimal digits. *)
Definition int_of_digits (s : list N) : Z :=
  fold_left (fun acc c => (10 * acc + (Z.of_N c - 48))%Z) s 0%Z.

(** ** Exceptions and mutable state *)

(** An exception of the browser. The source looks at [e.getcode()] (when
    [e] has such a method) and at whether [e.args[0]] is a
    [socket.timeout]. *)
Record fetch_error := mkFetchError {
  getcode : option Z;
  args0_is_timeout : bool
}.

Inductive exception :=
  | AttributeError
  | IndexError
  | ValueError
  | UnicodeEncodeError
  | UnicodeDecodeError
  | ParserError
  | BrowserError (e : fetch_error).

(** The outcome of an expression that may raise. *)
Inductive exc (A : Type) :=
  | Ok (a : A)
  | Raise (e : exception).
Arguments Ok {A} a.
Arguments Raise {A} e.

Definition exc_bind {A B} (m : exc A) (f : A -> exc B) : exc B :=
  match m with
  | Ok a => f a
  | Raise e => Raise e
  end.

(** [xs[0]]. *)
Definition item0 {A} (xs : list A) : exc A :=
  match xs with
  | x :: _ => Ok x
  | [] => Raise IndexError
  end.

(** A method body: it reads and writes the state [S], and either returns or
    raises; what it wrote before raising stays written. *)
Definition M (S A : Type) : Type := S -> exc A * S.

Definition ret {S A} (a : A) : M S A := fun s => (Ok a, s).
Definition raise {S A} (e : exception) : M S A := fun s => (Raise e, s).
Definition bind {S A B} (m : M S A) (f : A -> M S B) : M S B :=
  fun s => match m s with
           | (Ok a, s') => f a s'
           | (Raise e, s') => (Raise e, s')
           end.
Definition modify {S} (f : S -> S) : M S unit := fun s => (Ok tt, f s).
Definition lift {S A} (x : exc A) : M S A := fun s => (x, s).

(** [try: body / except: handler]. *)
Definition try_except {S A} (body : M S A) (handler : exception -> M S A) : M S A :=
  fun s => match body s with
           | (Ok a, s') => (Ok a, s')
           | (Raise e, s') => handler e s'
           end.

Declare Scope py_scope.
Delimit Scope py_scope with py.
Notation "x <- m ;; k" := (bind m (fun x => k))
  (at level 20, m at level 99, k at level 200, only parsing) : py_scope.
Notation "m ;; k" := (bind m (fun _ => k))
  (at level 100, k at level 200, right associativity, only parsing) : py_scope.

(** ** Data *)

(** [datetime.datetime(year, month, day)]. *)
Record datetime := Datetime { year : Z; month : Z; day : Z }.

(** calibre's [Metadata] object, with the attributes the worker sets.
    [Metadata(title, authors)] is [Metadata_init]; an attribute that was never
    assigned reads as [None]. *)
Record Metadata := mkMetadata {
  mi_title : unicode;
  mi_authors : list unicode;
  mi_series : option unicode;
  mi_series_index : option Q;
  mi_identifiers : gmap unicode unicode;
  mi_comments : option bytes;
  mi_has_cover : bool;
  mi_cover_url : option unicode;
  mi_publisher : option unicode;
  mi_pubdate : option datetime;
  mi_language : option unicode;
  mi_source_relevance : option Z
}.

Definition Metadata_init (title : unicode) (authors : list unicode) : Metadata :=
  mkMetadata title authors None None ∅ None false None None None None None.

Definition set_series (v : option unicode) (i : option Q) (mi : Metadata) : Metadata :=
  mkMetadata (mi_title mi) (mi_authors mi) v i (mi_identifiers mi)
    (mi_comments mi) (mi_has_cover mi) (mi_cover_url mi) (mi_publisher mi)
    (mi_pubdate mi) (mi_language mi) (mi_source_relevance mi).

(** [mi.set_identifier(typ, val)], and [mi.isbn = val] for [typ = 'isbn']. *)
Definition set_identifier (typ val : unicode) (mi : Metadata) : Metadata :=
  mkMetadata (mi_title mi) (mi_authors mi) (mi_series mi) (mi_series_index mi)
    (<[typ := val]> (mi_identifiers mi))
    (mi_comments mi) (mi_has_cover mi) (mi_cover_url mi) (mi_publisher mi)
    (mi_pubdate mi) (mi_language mi) (mi_source_relevance mi).

Definition set_comments (v : option bytes) (mi : Metadata) : Metadata :=
  mkMetadata (mi_title mi) (mi_authors mi) (mi_series mi) (mi_series_index mi)
    (mi_identifiers mi) v (mi_has_cover mi) (mi_cover_url mi) (mi_publisher mi)
    (mi_pubdate mi) (mi_language mi) (mi_source_relevance mi).

Definition set_cover (has : bool) (v : option unicode) (mi : Metadata) : Metadata :=
  mkMetadata (mi_title mi) (mi_authors mi) (mi_series mi) (mi_series_index mi)
    (mi_identifiers mi) (mi_comments mi) has v (mi_publisher mi)
    (mi_pubdate mi) (mi_language mi) (mi_source_relevance mi).

Definition set_publisher (v : option unicode) (mi : Metadata) : Metadata :=
  mkMetadata (mi_title mi) (mi_authors mi) (mi_series mi) (mi_series_index mi)
    (mi_identifiers mi) (mi_comments mi) (mi_has_cover mi) (mi_cover_url mi) v
    (mi_pubdate mi) (mi_language mi) (mi_source_relevance mi).

Definition set_pubdate (v : option datetime) (mi : Metadata) : Metadata :=
  mkMetadata (mi_title mi) (mi_authors mi) (mi_series mi) (mi_series_index mi)
    (mi_identifiers mi) (mi_comments mi) (mi_has_cover mi) (mi_cover_url mi)
    (mi_publisher mi) v (mi_language mi) (mi_source_relevance mi).

Definition set_language (v : unicode) (mi : Metadata) : Metadata :=
  mkMetadata (mi_title mi) (mi_authors mi) (mi_series mi) (mi_series_index mi)
    (mi_identifiers mi) (mi_comments mi) (mi_has_cover mi) (mi_cover_url mi)
    (mi_publisher mi) (mi_pubdate mi) (Some v) (mi_source_relevance mi).

Definition set_source_relevance (v : Z) (mi : Metadata) : Metadata :=
  mkMetadata (mi_title mi) (mi_authors mi) (mi_series mi) (mi_series_index mi)
    (mi_identifiers mi) (mi_comments mi) (mi_has_cover mi) (mi_cover_url mi)
    (mi_publisher mi) (mi_pubdate mi) (mi_language mi) (Some v).

(** An element that an XPath expression selected, with what the parsers read
    off it: [el.text] ([None] when no text precedes the first child),
    [el.text_content()] and [tostring(el, method='html')]. *)
Record Element := mkElement {
  text : option unicode;
  text_content : unicode;
  tostring : bytes
}.

(** A [td class="goods_infogrp"] cell of the result listing, with the
    values of [.//p[contains(@class, "goods_name")]/a/@href] under it. *)
Record Cell := mkCell { goods_name_href : list unicode }.

(** A parsed document ([root]), given by what each XPath expression of the
    source selects on it, in document order. lxml is not part of the plugin. *)
Record Page := mkPage {
  h1_a : list Element;           (* //h1/a *)
  og_title : list unicode;       (* //meta[@property="og:title"]/@content *)
  series_a : list Element;       (* //span[@class="series"]/a *)
  title_p : list Element;        (* //div[@id="title"]/p *)
  isbn10_p : list Element;       (* //dd[@class="isbn10"]/p *)
  pdDate_p : list Element;       (* //dd[@class="pdDate"]/p *)
  description_p : list Element;  (* //div/h2/img[@title="..."]/../../p *)
  og_image : list unicode;       (* //meta[@property="og:image"]/@content *)
  goods_infogrp : list Cell      (* //td[@class="goods_infogrp"] *)
}.

(** What [browser.open_novisit(url).read()] does: the body, or an exception
    from [open_novisit] or from [read]. *)
Inductive response :=
  | Body (raw : bytes)
  | OpenFailed (e : fetch_error)
  | ReadFailed (e : fetch_error).

(** The libraries the plugin calls and that are not part of it. *)
Class Host := {
  (** calibre's [check_isbn]: the normalised ISBN, or [None]. *)
  check_isbn : option unicode -> option unicode;
  (** The table of the [euc-kr] codec: the bytes of a code point of the
      Basic Multilingual Plane above ASCII, when it has any. *)
  euc_kr_table : N -> option bytes;
  (** [raw.decode('euc-kr', errors='replace')]. *)
  decode_euc_kr : bytes -> unicode;
  (** [fromstring(clean_ascii_chars(raw))] of lxml and calibre; lxml raises on
      a document it cannot parse. *)
  fromstring : unicode -> exc Page;
  (** [float(s)], [None] when it raises [ValueError]. *)
  float : unicode -> option Q;
  (** [Source.clean_downloaded_metadata(mi)] of calibre, as the record it
      leaves behind. *)
  clean_downloaded_metadata : Metadata -> Metadata
}.

(** *** The log *)

Inductive level := INFO | ERROR | EXCEPTION.

Inductive value :=
  | VNone
  | VText (t : unicode)
  | VList (l : list unicode).

(** One call of [log.info], [log.error] or [log.exception]: the format
    string of the source and the values formatted into it. *)
Record entry := Log { lvl : level; fmt : string; args : list value }.

Definition value_of_option (o : option unicode) : value :=
  match o with
  | Some t => VText t
  | None => VNone
  end.

(** *** The objects shared by the plugin and its workers *)

Record World := mkWorld {
  (** what the bookseller's site answers to a GET of a URL *)
  web : unicode -> response;
  (** the URLs given to [open_novisit] so far, latest last *)
  opened : list unicode;
  log : list entry;
  (** [result_queue], oldest first *)
  result_queue : list Metadata;
  (** [Source._isbn_to_identifier_cache] and
      [Source._identifier_to_cover_url_cache], two dicts of the base class *)
  _isbn_to_identifier_cache : gmap unicode unicode;
  _identifier_to_cover_url_cache : gmap unicode unicode
}.

(** The attributes of a [Worker] that its methods read or write. *)
Record Worker := mkWorker {
  url : unicode;
  relevance : Z;
  cover_url : option unicode;
  yes24_id : option unicode;
  isbn : option unicode
}.

(** [Worker.__init__(url, result_queue, browser, log, relevance, plugin)]. *)
Definition Worker_init (url : unicode) (relevance : Z) : Worker :=
  mkWorker url relevance None None None.

(** The state a worker method runs in: [self] and the shared objects. *)
Definition State : Type := Worker * World.

Local Open Scope py_scope.

(** ** The shared objects' methods *)

Module world.

Definition write_log (e : entry) (w : World) : World :=
  mkWorld (web w) (opened w) (log w ++ [e]) (result_queue w)
    (_isbn_to_identifier_cache w) (_identifier_to_cover_url_cache w).

Definition note_open (url : unicode) (w : World) : World :=
  mkWorld (web w) (opened w ++ [url]) (log w) (result_queue w)
    (_isbn_to_identifier_cache w) (_identifier_to_cover_url_cache w).

(** [result_queue.put(mi)]. *)
Definition put (mi : Metadata) (w : World) : World :=
  mkWorld (web w) (opened w) (log w) (result_queue w ++ [mi])
    (_isbn_to_identifier_cache w) (_identifier_to_cover_url_cache w).

(** [Source.cache_isbn_to_identifier(isbn, identifier)]:
    [self._isbn_to_identifier_cache[isbn] = identifier]. *)
Definition cache_isbn_to_identifier (isbn identifier : unicode) (w : World) : World :=
  mkWorld (web w) (opened w) (log w) (result_queue w)
    (<[isbn := identifier]> (_isbn_to_identifier_cache w))
    (_identifier_to_cover_url_cache w).

(** [Source.cache_identifier_to_cover_url(id_, url)]:
    [self._identifier_to_cover_url_cache[id_] = url]. *)
Definition cache_identifier_to_cover_url (id_ url : unicode) (w : World) : World :=
  mkWorld (web w) (opened w) (log w) (result_queue w)
    (_isbn_to_identifier_cache w)
    (<[id_ := url]> (_identifier_to_cover_url_cache w)).

(** [Source.cached_isbn_to_identifier(isbn)]. *)
Definition cached_isbn_to_identifier (isbn : unicode) (w : World) : option unicode :=
  _isbn_to_identifier_cache w !! isbn.

(** [browser.open_novisit(url, timeout=...)]: the response object, given
    by what its [read()] will do. *)
Definition open_novisit (url : unicode) : M World (exc bytes) :=
  fun w =>
    let w' := note_open url w in
    match web w url with
    | Body raw => (Ok (Ok raw), w')
    | OpenFailed e => (Raise (BrowserError e), w')
    | ReadFailed e => (Ok (Raise (BrowserError e)), w')
    end.

Definition log_ (l : level) (f : string) (a : list value) : M World unit :=
  modify (write_log (Log l f a)).

End world.

(** ** worker.py *)

(** A method of the plugin or a call on a shared object, run from a worker. *)
Definition on_world {A} (m : M World A) : M State A :=
  fun '(self, w) => let '(r, w') := m w in (r, (self, w')).

Definition on_self (f : Worker -> Worker) : M State unit :=
  modify (fun '(self, w) => (f self, w)).

Definition self : M State Worker := fun s => (Ok (fst s), s).

Definition log_info (f : string) (a : list value) : M State unit :=
  on_world (world.log_ INFO f a).
Definition log_error (f : string) (a : list value) : M State unit :=
  on_world (world.log_ ERROR f a).
Definition log_exception (f : string) (a : list value) : M State unit :=
  on_world (world.log_ EXCEPTION f a).

Definition set_relevance (v : Z) (w : Worker) : Worker :=
  mkWorker (url w) v (cover_url w) (yes24_id w) (isbn w).
Definition set_cover_url (v : option unicode) (w : Worker) : Worker :=
  mkWorker (url w) (relevance w) v (yes24_id w) (isbn w).
Definition set_yes24_id (v : option unicode) (w : Worker) : Worker :=
  mkWorker (url w) (relevance w) (cover_url w) v (isbn w).
Definition set_isbn (v : option unicode) (w : Worker) : Worker :=
  mkWorker (url w) (relevance w) (cover_url w) (yes24_id w) v.

(** Python's truth value of an object that is [None] or a sequence. *)
Definition truthy {A} (o : option (list A)) : bool :=
  match o with
  | Some (_ :: _) => true
  | _ => false
  end.

(** *** Regular expressions of the source *)

Inductive atom :=
  | Lit (c : N)          (* the character itself *)
  | Dot                  (* [.]: any character but a newline *)
  | OneOf (cs : list N). (* [[...]] *)

Definition atom_matches (a : atom) (c : N) : bool :=
  match a with
  | Lit c' => c =? c'
  | Dot => negb (c =? 10)
  | OneOf cs => bool_decide (c ∈ cs)
  end.

(** What is left of [s] after the atoms matched at its front. *)
Fixpoint match_atoms (p : list atom) (s : list N) : option (list N) :=
  match p, s with
  | [], _ => Some s
  | a :: p', c :: s' => if atom_matches a c then match_atoms p' s' else None
  | _ :: _, [] => None
  end.

(** [p(\d+)] at the front of [s]: group 1. *)
Definition match_then_digits (p : list atom) (s : list N) : option (list N) :=
  match match_atoms p s with
  | Some r =>
      match span_digits r with
      | ([], _) => None
      | (d, _) => Some d
      end
  | None => None
  end.

(** [re.search(p + '(\d+)', s)]: group 1 of the leftmost match. *)
Fixpoint search_then_digits (p : list atom) (s : list N) : option (list N) :=
  match match_then_digits p s with
  | Some d => Some d
  | None =>
      match s with
      | [] => None
      | _ :: s' => search_then_digits p s'
      end
  end.

(** ['yes24.com/24/[Gg]oods/'], the dot unescaped as in the source. *)
Definition yes24_id_pattern : list atom :=
  (Lit <$> u "yes24") ++ [Dot] ++ (Lit <$> u "com/24/")
  ++ [OneOf (u "Gg")] ++ (Lit <$> u "oods/").

(** [re.search('yes24.com/24/[Gg]oods/(\d+)', url).groups(0)[0]]. *)
Definition parse_yes24_id (url : unicode) : exc unicode :=
  match search_then_digits yes24_id_pattern url with
  | Some d => Ok d
  | None => Raise AttributeError
  end.

(** [el.text.strip()]. *)
Definition text_strip (el : Element) : exc unicode :=
  match text el with
  | Some t => Ok (strip t)
  | None => Raise AttributeError
  end.

(** [xs[-k]] for [k >= 1]. *)
Definition item_from_end {A} (k : nat) (xs : list A) : exc A :=
  match rev xs !! (k - 1)%nat with
  | Some x => Ok x
  | None => Raise IndexError
  end.

(** [re.match(u'^(\d+)Y (\d+)M (\d+)D$', s).group(1, 2, 3)] where [Y], [M]
    and [D] are the Hangul syllables U+B144, U+C6D4 and U+C77C. [$] also
    matches before a final newline. *)
Definition match_date (s : unicode) : exc (unicode * unicode * unicode) :=
  match span_digits s with
  | ((_ :: _) as y, 45380 :: 32 :: r1) =>
      match span_digits r1 with
      | ((_ :: _) as m, 50900 :: 32 :: r2) =>
          match span_digits r2 with
          | ((_ :: _) as d, 51068 :: r3) =>
              if bool_decide (r3 = []) || bool_decide (r3 = [10])
              then Ok (y, m, d)
              else Raise AttributeError
          | _ => Raise AttributeError
          end
      | _ => Raise AttributeError
      end
  | _ => Raise AttributeError
  end.

Definition is_leap (y : Z) : bool :=
  ((y mod 4 =? 0) && (negb (y mod 100 =? 0) || (y mod 400 =? 0)))%Z.

Definition days_in_month (y m : Z) : Z :=
  (if m =? 2 then (if is_leap y then 29 else 28)
   else if (m =? 4) || (m =? 6) || (m =? 9) || (m =? 11) then 30
   else 31)%Z.

(** [datetime.datetime(year, month, day)] raises on a date that does not
    exist. *)
Definition datetime_new (y m d : Z) : exc datetime :=
  if ((1 <=? y) && (y <=? 9999) && (1 <=? m) && (m <=? 12)
      && (1 <=? d) && (d <=? days_in_month y m))%Z
  then Ok (Datetime y m d)
  else Raise ValueError.

Definition _convert_date_text (date_text : unicode) : exc datetime :=
  exc_bind (match_date date_text) (fun '(year_s, month_s, day_s) =>
  let year := int_of_digits year_s in
  let month := int_of_digits month_s in
  let day := int_of_digits day_s in
  datetime_new year month day).

(** What an XPath expression yields: elements, or the strings of an
    attribute when it ends in [/@name]. A string has no [.text]. *)
Inductive node :=
  | Selected (el : Element)
  | Attribute (v : unicode).

(** [node.text.strip()]. *)
Definition node_text_strip (n : node) : exc unicode :=
  match n with
  | Selected el => text_strip el
  | Attribute _ => Raise AttributeError
  end.

Section parsers.
Context `{Host}.

Definition parse_title_series (root : Page)
  : exc (option unicode * option unicode * option Q) :=
  let title_node := Selected <$> h1_a root in
  let title_node :=
    match title_node with
    | [] => Attribute <$> og_title root
    | _ :: _ => title_node
    end in
  match title_node with
  | [] => Ok (None, None, None)
  | node :: _ =>
      exc_bind (node_text_strip node) (fun title_text =>
      match series_a root with
      | el :: _ =>
          exc_bind (text_strip el) (fun s =>
          match rsplit1 45 s with
          | [series_name; idx] =>
              match float idx with
              | Some series_index =>
                  Ok (Some title_text, Some series_name, Some series_index)
              | None => Raise ValueError
              end
          | series_name :: _ => Ok (Some title_text, Some series_name, None)
          | [] => Raise IndexError
          end)
      | [] => Ok (Some title_text, None, None)
      end)
  end.

Definition parse_authors (root : Page) : exc (option (list unicode)) :=
  match title_p root with
  | el :: _ =>
      let bgrp := split 124 (text_content el) in
      exc_bind (item0 bgrp) (fun b0 => Ok (Some (strip <$> split 44 b0)))
  | [] => Ok None
  end.

Definition parse_isbn (root : Page) : exc (option unicode) :=
  match isbn10_p root with
  | el :: _ => exc_bind (text_strip el) (fun t => Ok (Some t))
  | [] => Ok None
  end.

Definition parse_publisher (root : Page) : exc (option unicode) :=
  match title_p root with
  | el :: _ =>
      let bgrp := split 124 (text_content el) in
      if (3 <? length bgrp)%nat
      then exc_bind (item_from_end 2 bgrp) (fun p => Ok (Some (strip p)))
      else exc_bind (item_from_end 1 bgrp) (fun p => Ok (Some (strip p)))
  | [] => Ok None
  end.

Definition parse_published_date (root : Page) : exc (option datetime) :=
  match pdDate_p root with
  | el :: _ =>
      exc_bind (text_strip el) (fun t =>
      exc_bind (_convert_date_text t) (fun d => Ok (Some d)))
  | [] => Ok None
  end.

Definition parse_comments (root : Page) : exc (option bytes) :=
  let comments :=
    match description_p root with
    | el :: _ => strip_bytes (tostring el)
    | [] => []
    end in
  match comments with
  | _ :: _ => Ok (Some comments)
  | [] => Ok None
  end.

Definition parse_cover (root : Page) : M State (option unicode) :=
  match og_image root with
  | image :: _ =>
      let page_url := strip image in
      let page_url :=
        if endswith (u "/M") page_url
        then replace (u "/M") (u "/L") page_url
        else page_url in
      w <- self;;
      (if truthy (yes24_id w)
       then on_world (modify (world.cache_identifier_to_cover_url
                                (default [] (yes24_id w)) page_url))
       else ret tt);;
      (* Lower our relevance factor in favour of an ISBN that has a full
         cover if possible *)
      on_self (fun w => set_relevance (relevance w + 5) w);;
      ret (Some page_url)
  | [] => ret None
  end.

Definition parse_details (root : Page) : M State unit :=
  w <- self;;
  yes24_id_ <-
    try_except
      (id <- lift (parse_yes24_id (url w));; ret (Some id))
      (fun _ =>
         log_exception "Error parsing YES24 id for url: %r" [VText (url w)];;
         ret None);;
  tss <-
    try_except
      (lift (parse_title_series root))
      (fun _ =>
         log_exception "Error parsing title and series for url: %r" [VText (url w)];;
         ret (None, None, None));;
  let '(title, series, series_index) := tss in
  authors <-
    try_except
      (lift (parse_authors root))
      (fun _ =>
         log_exception "Error parsing authors for url: %r" [VText (url w)];;
         ret (Some []));;
  if negb (truthy title) || negb (truthy authors) || negb (truthy yes24_id_)
  then
    log_error "Could not find title/authors/YES24 id for %r" [VText (url w)];;
    log_error "YES24: %r Title: %r Authors: %r"
      [value_of_option yes24_id_; value_of_option title;
       from_option VList VNone authors];;
    ret tt
  else
    let mi := Metadata_init (default [] title) (default [] authors) in
    let mi := if truthy series then set_series series series_index mi else mi in
    let mi := set_identifier (u "yes24") (default [] yes24_id_) mi in
    on_self (set_yes24_id yes24_id_);;
    mi <-
      try_except
        (isbn_ <- lift (parse_isbn root);;
         if truthy isbn_
         then on_self (set_isbn isbn_);;
              ret (set_identifier (u "isbn") (default [] isbn_) mi)
         else ret mi)
        (fun _ =>
           log_exception "Error parsing ISBN for url: %r" [VText (url w)];;
           ret mi);;
    mi <-
      try_except
        (comments <- lift (parse_comments root);;
         ret (set_comments comments mi))
        (fun _ =>
           log_exception "Error parsing comments for url: %r" [VText (url w)];;
           ret mi);;
    try_except
      (cover <- parse_cover root;;
       on_self (set_cover_url cover))
      (fun _ =>
         log_exception "Error parsing cover for url: %r" [VText (url w)]);;
    w' <- self;;
    let mi := set_cover (truthy (cover_url w')) (cover_url w') mi in
    mi <-
      try_except
        (publisher <- lift (parse_publisher root);;
         ret (set_publisher publisher mi))
        (fun _ =>
           log_exception "Error parsing publisher for url: %r" [VText (url w)];;
           ret mi);;
    mi <-
      try_except
        (pubdate <- lift (parse_published_date root);;
         ret (set_pubdate pubdate mi))
        (fun _ =>
           log_exception "Error parsing published date for url: %r" [VText (url w)];;
           ret mi);;
    let mi := set_language (u "ko") mi in
    w' <- self;;
    let mi := set_source_relevance (relevance w') mi in
    (if truthy (yes24_id w') && truthy (isbn w')
     then on_world (modify (world.cache_isbn_to_identifier
                              (default [] (isbn w')) (default [] (yes24_id w'))))
     else ret tt);;
    let mi := clean_downloaded_metadata mi in
    on_world (modify (world.put mi)).

Definition exception_getcode (e : exception) : option Z :=
  match e with
  | BrowserError f => getcode f
  | _ => None
  end.

Definition exception_is_timeout (e : exception) : bool :=
  match e with
  | BrowserError f => args0_is_timeout f
  | _ => false
  end.

Definition get_details : M State unit :=
  w <- self;;
  fetched <-
    try_except
      (log_info "YES24 url: %r" [VText (url w)];;
       response <- on_world (world.open_novisit (url w));;
       raw <- lift response;;
       ret (Some (strip_bytes raw)))
      (fun e =>
         (if bool_decide (exception_getcode e = Some 404%Z)
          then log_error "URL malformed: %r" [VText (url w)]
          else if exception_is_timeout e
          then log_error "YES24 timed out. Try again later." []
          else log_exception "Failed to make details query: %r" [VText (url w)]);;
         ret None);;
  match fetched with
  | None => ret tt
  | Some raw =>
      let raw := decode_euc_kr raw in
      if contains (u "HTTP 404.") raw
      then log_error "URL malformed: %r" [VText (url w)]
      else
        parsed <-
          try_except
            (root <- lift (fromstring raw);; ret (Some root))
            (fun _ =>
               log_exception "Failed to parse YES24 details page: %r" [VText (url w)];;
               ret None);;
        match parsed with
        | None => ret tt
        | Some root => parse_details root
        end
  end.

(** [Worker.run]: the body of the thread. *)
Definition run : M State unit :=
  w <- self;;
  try_except get_details
    (fun _ => log_exception "get_details failed for url: %r" [VText (url w)]).

End parsers.

(** ** __init__.py *)

Definition BASE_URL : unicode := u "http://www.yes24.com".
Definition BROWSE_URL : unicode := u "http://www.yes24.com/24/Goods".
Definition SEARCH_URL : unicode := u "http://www.yes24.com/searchcorner/Search?domain=BOOK".

(** *** Python 2's [urllib.quote] *)

Definition always_safe : list N :=
  u "ABCDEFGHIJKLMNOPQRSTUVWXYZabcdefghijklmnopqrstuvwxyz0123456789_.-".

Definition hex_digit (n : N) : N :=
  if n <? 10 then 48 + n else 55 + n.

(** [quote(s)] with the default [safe='/']: a byte that is not safe becomes
    [%XX]. *)
Definition quote (s : bytes) : unicode :=
  concat ((fun c =>
             if bool_decide (c ∈ always_safe ++ u "/") then [c]
             else [37; hex_digit (c / 16); hex_digit (c mod 16)]) <$> s).

(** Monadic map over a list: a list comprehension whose expression may
    raise. *)
Fixpoint for_each {A B} (f : A -> exc B) (xs : list A) : exc (list B) :=
  match xs with
  | [] => Ok []
  | x :: xs' =>
      exc_bind (f x) (fun y =>
      exc_bind (for_each f xs') (fun ys => Ok (y :: ys)))
  end.

Section plugin.
Context `{Host}.

(** [t.encode('euc-kr')]: ASCII as it is, the rest of the Basic
    Multilingual Plane through the codec's table, and nothing beyond. *)
Definition encode_euc_kr (t : unicode) : exc bytes :=
  exc_bind
    (for_each (fun c =>
                 if c <? 128 then Ok [c]
                 else if 65535 <? c then Raise UnicodeEncodeError
                 else match euc_kr_table c with
                      | Some b => Ok b
                      | None => Raise UnicodeEncodeError
                      end) t)
    (fun bs => Ok (concat bs)).

(** [s.split(' ')]: the separator is a [unicode] literal (the module has
    [unicode_literals]), so a [str] is first decoded as ASCII and the pieces
    are [unicode] objects. *)
Definition split_space (s : basestring) : exc (list basestring) :=
  match s with
  | Unicode t => Ok (Unicode <$> split 32 t)
  | Str b =>
      if forallb (fun c => c <? 128) b
      then Ok (Unicode <$> split 32 b)
      else Raise UnicodeDecodeError
  end.

(** [quote(t.encode('euc-kr') if isinstance(t, unicode) else t)]. *)
Definition quote_token (t : basestring) : exc unicode :=
  match t with
  | Unicode t => exc_bind (encode_euc_kr t) (fun b => Ok (quote b))
  | Str b => Ok (quote b)
  end.

Definition nonempty (s : basestring) : bool :=
  match s with
  | Unicode (_ :: _) | Str (_ :: _) => true
  | _ => false
  end.

Definition _create_query (title : option basestring)
    (authors : option (list basestring))
    (identifiers : gmap unicode unicode) : exc (option unicode) :=
  match check_isbn (identifiers !! u "isbn") with
  | Some isbn => Ok (Some (SEARCH_URL ++ u "&query=" ++ isbn))
  | None =>
      let tokens := [] in
      exc_bind
        match title with
        | Some t =>
            if nonempty t
            then exc_bind (split_space t) (fun title_tokens =>
                 exc_bind (for_each quote_token title_tokens) (fun qs =>
                 Ok (tokens ++ qs)))
            else Ok tokens
        | None => Ok tokens
        end (fun tokens =>
      exc_bind
        match authors with
        | Some (a0 :: _) =>
            exc_bind (split_space a0) (fun author_tokens =>
            exc_bind (for_each quote_token author_tokens) (fun qs =>
            Ok (tokens ++ qs)))
        | _ => Ok tokens
        end (fun tokens =>
      if (length tokens =? 0)%nat then Ok None
      else Ok (Some (SEARCH_URL ++ u "&query=" ++ join (u "+") tokens))))
  end.

(** The loop of [_parse_search_results] over [results]; the state is the
    list [matches], which the caller keeps when the loop raises. *)
Fixpoint for_result_in (results : list Cell) : M (list unicode) unit :=
  match results with
  | [] => ret tt
  | result :: results' =>
      (* Get the detailed url to query next *)
      result_url <- lift (item0 (goods_name_href result));;
      modify (fun matches => matches ++ [BASE_URL ++ result_url]);;
      for_result_in results'
  end.

Definition _parse_search_results (root : Page) : M (list unicode) unit :=
  let results := goods_infogrp root in
  match results with
  | [] => ret tt
  | _ :: _ => for_result_in results
  end.

Definition get_cached_cover_url (identifiers : gmap unicode unicode)
    (w : World) : option unicode :=
  let yes24_id := identifiers !! u "yes24" in
  let yes24_id :=
    match yes24_id with
    | None =>
        match identifiers !! u "isbn" with
        | Some isbn => world.cached_isbn_to_identifier isbn w
        | None => None
        end
    | Some _ => yes24_id
    end in
  if truthy yes24_id
  then _identifier_to_cover_url_cache w !! default [] yes24_id
  else None.

(** What [identify] returns: [None], one of its messages, or
    [as_unicode(e)] for the exception it caught. *)
Inductive returned :=
  | ReturnNone
  | ReturnMsg (msg : string)
  | ReturnError (e : exception).

(** [[Worker(url, result_queue, br, log, i, self) for i, url in
    enumerate(matches)]]. *)
Definition workers_for (matches : list unicode) : list Worker :=
  imap (fun i url => Worker_init url (Z.of_nat i)) matches.

(** The search of [identify], lines 60 to 91: the candidates found, or the
    value [identify] returns at once. A [UnicodeEncodeError] of
    [_create_query] is outside the [try] and leaves [identify]. *)
Definition search (title : option basestring)
    (authors : option (list basestring))
    (identifiers : gmap unicode unicode) (matches : list unicode)
  : M World (list unicode + returned) :=
  query <- lift (_create_query title authors identifiers);;
  match query with
  | None =>
      world.log_ ERROR "Insufficient metadata to construct query" [];;
      ret (inr ReturnNone)
  | Some query =>
      try_except
        (world.log_ INFO "Querying: %s" [VText query];;
         response <- world.open_novisit query;;
         parsed <-
           try_except
             (raw <- lift response;;
              let raw := strip_bytes raw in
              let raw := decode_euc_kr raw in
              match raw with
              | [] =>
                  world.log_ ERROR "Failed to get raw result for query" [];;
                  ret (inr ReturnNone)
              | _ :: _ =>
                  root <- lift (fromstring raw);;
                  ret (inl root)
              end)
             (fun _ =>
                let msg := "Failed to parse YES24 page for query"%string in
                world.log_ EXCEPTION msg [];;
                ret (inr (ReturnMsg msg)));;
         match parsed with
         | inr r => ret (inr r)
         | inl root =>
             fun w =>
               match _parse_search_results root matches with
               | (Ok _, matches) => (Ok (inl matches), w)
               | (Raise e, _) => (Raise e, w)
               end
         end)
        (fun e =>
           let err := "Failed to make identify query"%string in
           world.log_ EXCEPTION err [];;
           ret (inr (ReturnError e)))
  end.

(** [identify] up to the point where every worker has been started:
    what it returns if it returns before the polling loop, and the workers
    it started. [abort_is_set] is what [abort.is_set()] answers on line 93.
    The polling loop that follows is [wait_for_workers]; it touches none of
    the shared objects and [identify] returns [None] after it. *)
Definition identify (abort_is_set : bool) (title : option basestring)
    (authors : option (list basestring))
    (identifiers : gmap unicode unicode)
  : M World (returned * list Worker) :=
  let matches := [] in
  (* If we have a YES24 id then we do not need to fire a "search" at
     yes24.com. Instead we will go straight to the URL for that book. *)
  let yes24_id := identifiers !! u "yes24" in
  found <-
    (if truthy yes24_id
     then ret (inl (matches ++ [BROWSE_URL ++ u "/" ++ default [] yes24_id]))
     else search title authors identifiers matches);;
  match found with
  | inr r => ret (r, [])
  | inl matches =>
      if abort_is_set then ret (ReturnNone, [])
      else
        world.log_ INFO "  Matches are: " [VList matches];;
        let workers := workers_for matches in
        ret (ReturnNone, workers)
  end.

End plugin.

(** *** The polling loop of [identify] *)

(** When the abort event gets set and when each worker's thread ends, on a
    clock that ticks at every [abort.is_set()], [w.join(0.2)] and
    [w.is_alive()] of the loop. [None]: never. Workers are named by their
    position in [workers]; all of them were started before the loop. *)
Record Schedule := mkSchedule {
  abort_at : option nat;
  finish_at : nat -> option nat
}.

Definition is_set (sch : Schedule) (now : nat) : bool :=
  match abort_at sch with
  | Some t => bool_decide (t <= now)%nat
  | None => false
  end.

Definition is_alive (sch : Schedule) (w : nat) (now : nat) : bool :=
  match finish_at sch w with
  | Some t => bool_decide (now < t)%nat
  | None => true
  end.

(** [for w in workers: ...] of the loop, from time [now]: the time after it,
    and [a_worker_is_alive]. *)
Fixpoint for_w_in (sch : Schedule) (workers : list nat) (now : nat)
    (a_worker_is_alive : bool) : nat * bool :=
  match workers with
  | [] => (now, a_worker_is_alive)
  | w :: workers' =>
      let now := S now in (* w.join(0.2) *)
      if is_set sch now then (S now, a_worker_is_alive) (* break *)
      else
        let now := S now in
        let a_worker_is_alive :=
          if is_alive sch w now then true else a_worker_is_alive in
        for_w_in sch workers' (S now) a_worker_is_alive
  end.

(** [while not abort.is_set(): ...], at most [fuel] rounds of it: the time
    at which the loop is left, [None] when it is still going. *)
Fixpoint wait_for_workers (fuel : nat) (sch : Schedule) (workers : list nat)
    (now : nat) : option nat :=
  match fuel with
  | O => None
  | S fuel' =>
      if is_set sch now then Some (S now)
      else
        let '(now', a_worker_is_alive) := for_w_in sch workers (S now) false in
        if negb a_worker_is_alive then Some now' (* break *)
        else wait_for_workers fuel' sch workers now'
  end.

(** ** What a worker's run amounts to *)

(** The value a field parser leaves in its field: what it returned, and
    nothing when it raised. *)
Definition field {A} (x : exc (option A)) : option A :=
  match x with
  | Ok v => v
  | Raise _ => None
  end.

Definition raised {A} (x : exc A) : bool :=
  match x with
  | Ok _ => false
  | Raise _ => true
  end.

(** The URL that [parse_cover] settles on. *)
Definition cover_of (root : Page) : option unicode :=
  match og_image root with
  | image :: _ =>
      let page_url := strip image in
      Some (if endswith (u "/M") page_url
            then replace (u "/M") (u "/L") page_url
            else page_url)
  | [] => None
  end.

(** What the handler of [get_details] logs for a failed fetch. *)
Definition fetch_failure_entry (url : unicode) (e : fetch_error) : entry :=
  if bool_decide (getcode e = Some 404%Z)
  then Log ERROR "URL malformed: %r" [VText url]
  else if args0_is_timeout e
  then Log ERROR "YES24 timed out. Try again later." []
  else Log EXCEPTION "Failed to make details query: %r" [VText url].

Section summary.
Context `{Host}.

Definition found_id (url : unicode) : option unicode :=
  match parse_yes24_id url with
  | Ok id => Some id
  | Raise _ => None
  end.

Definition found_title (root : Page) : option unicode * option unicode * option Q :=
  match parse_title_series root with
  | Ok t => t
  | Raise _ => (None, None, None)
  end.

Definition found_authors (root : Page) : option (list unicode) :=
  match parse_authors root with
  | Ok a => a
  | Raise _ => Some []
  end.

(** The test of [parse_details] for going on: title, authors and YES24 id
    were all found and none is empty. *)
Definition complete (url : unicode) (root : Page) : bool :=
  truthy (found_title root).1.1 && truthy (found_authors root)
  && truthy (found_id url).

(** The record [parse_details] builds on a complete page, before
    [clean_downloaded_metadata]. *)
Definition draft_of (url : unicode) (relevance : Z) (root : Page) : Metadata :=
  let '(title, series, series_index) := found_title root in
  let mi := Metadata_init (default [] title) (default [] (found_authors root)) in
  let mi := if truthy series then set_series series series_index mi else mi in
  let mi := set_identifier (u "yes24") (default [] (found_id url)) mi in
  let isbn := field (parse_isbn root) in
  let mi := if truthy isbn then set_identifier (u "isbn") (default [] isbn) mi else mi in
  let mi := set_comments (field (parse_comments root)) mi in
  let mi := set_cover (truthy (cover_of root)) (cover_of root) mi in
  let mi := set_publisher (field (parse_publisher root)) mi in
  let mi := set_pubdate (field (parse_published_date root)) mi in
  let mi := set_language (u "ko") mi in
  let truthy_cover := bool_decide (is_Some (cover_of root)) in
  let mi := set_source_relevance
              (if truthy_cover then relevance + 5 else relevance)%Z mi in
  mi.

(** The record [parse_details] puts on the queue. *)
Definition record_of (url : unicode) (relevance : Z) (root : Page) : Metadata :=
  clean_downloaded_metadata (draft_of url relevance root).

(** A dict after some assignments [d[k] = v]: no key is lost. *)
Definition grown (d d' : gmap unicode unicode) : Prop :=
  forall k, is_Some (d !! k) -> is_Some (d' !! k).

(** What [parse_details] logs after the test, one entry per parser that
    raised. *)
Definition field_errors (url : unicode) (root : Page) : list entry :=
  (if raised (parse_isbn root)
   then [Log EXCEPTION "Error parsing ISBN for url: %r" [VText url]] else [])
  ++ (if raised (parse_comments root)
      then [Log EXCEPTION "Error parsing comments for url: %r" [VText url]] else [])
  ++ (if raised (parse_publisher root)
      then [Log EXCEPTION "Error parsing publisher for url: %r" [VText url]] else [])
  ++ (if raised (parse_published_date root)
      then [Log EXCEPTION "Error parsing published date for url: %r" [VText url]] else []).

(** The records a worker for [url] puts on the queue when the site answers
    [r]. *)
Definition emitted (url : unicode) (relevance : Z) (r : response) : list Metadata :=
  match r with
  | Body raw =>
      let raw := decode_euc_kr (strip_bytes raw) in
      if contains (u "HTTP 404.") raw then []
      else match fromstring raw with
           | Ok root => if complete url root then [record_of url relevance root] else []
           | Raise _ => []
           end
  | _ => []
  end.

(** Every code point of [t] is in the repertoire of the [euc-kr] codec. *)
Definition encodable (t : unicode) : bool :=
  forallb (fun c => (c <? 128) || (c <=? 65535) && bool_decide (is_Some (euc_kr_table c))) t.

(** [quote_token] will not raise on any piece of [s.split(' ')]. *)
Definition quotable (s : basestring) : bool :=
  match s with
  | Unicode t => encodable t
  | Str b => forallb (fun c => c <? 128) b
  end.

End summary.

(** The session after the workers [ws] have run, one after the other. *)
Fixpoint runs `{Host} (ws : list Worker) (s : World) : World :=
  match ws with
  | [] => s
  | w :: ws' => runs ws' (run (w, s)).2.2
  end.

(** A cell of the listing has a [goods_name] link. *)
Definition has_href (cell : Cell) : bool :=
  match goods_name_href cell with
  | [] => false
  | _ :: _ => true
  end.

(** The candidate URL of a cell: [BASE_URL] and its first [href]. *)
Definition candidate (cell : Cell) : unicode :=
  BASE_URL ++ default [] (head (goods_name_href cell)).

(** [if title:] and [if authors:]. *)
Definition has_title (title : option basestring) : bool :=
  match title with
  | Some t => nonempty t
  | None => false
  end.

Definition has_authors (authors : option (list basestring)) : bool :=
  match authors with
  | Some (_ :: _) => true
  | _ => false
  end.

(** The tokens a title or an author contributes to the query. *)
Definition tokens_of `{Host} (s : basestring) : exc (list unicode) :=
  exc_bind (split_space s) (for_each quote_token).

(** Every [M] that directly follows a [/] turned into [L]; [after_slash]
    tells whether the character before [s] was a [/]. *)
Fixpoint M_after_slash_to_L (after_slash : bool) (s : unicode) : unicode :=
  match s with
  | [] => []
  | c :: s' =>
      (if after_slash && (c =? 77) then 76 else c)
      :: M_after_slash_to_L (c =? 47) s'
  end.

(** The rewriting that C10 describes: only the first occurrence of [old]
    replaced. It is what Python's [s.replace(old, new, 1)] does, not what the
    source calls. *)
Fixpoint replace_first (old new : list N) (s : list N) : list N :=
  if startswith old s then new ++ drop (length old) s
  else match s with
       | [] => []
       | c :: s' => c :: replace_first old new s'
       end.

(** ** A host to run the plugin on

    A small stand-in for calibre, lxml and the codec, on which the
    definitions above compute: ISBN-13 check digits, the few Hangul syllables
    of the plugin's own test data, and lxml's answer for a handful of
    documents. *)

Module example.

(** An ISBN of 13 digits whose check digit is right (the ISBN-13 part of
    calibre's [check_isbn]). *)
Definition isbn13 (o : option unicode) : option unicode :=
  match o with
  | Some s =>
      let digits := (fun c => c - 48) <$> s in
      let weighted :=
        imap (fun i d => if Nat.even i then d else 3 * d) digits in
      if forallb is_digit s && (length s =? 13)%nat
         && (foldr N.add 0 weighted mod 10 =? 0)
      then Some s else None
  | None => None
  end.

Definition hangul (c : N) : option bytes :=
  match c with
  | 44608 => Some [177; 232] (* U+AE40 *)
  | 54984 => Some [200; 198] (* U+D6C8 *)
  | 52860 => Some [196; 174] (* U+CE7C *)
  | 51032 => Some [192; 199] (* U+C758 *)
  | 45432 => Some [179; 235] (* U+B178 *)
  | 47000 => Some [183; 161] (* U+B798 *)
  | _ => None
  end.

Definition decode_ascii (b : bytes) : unicode :=
  (fun c => if c <? 128 then c else 65533) <$> b.

Definition float_of_digits (s : unicode) : option Q :=
  match s with
  | _ :: _ => if forallb is_digit s then Some (inject_Z (int_of_digits s)) else None
  | [] => None
  end.

(** An element that holds the text [t] and nothing else. *)
Definition elem (t : string) : Element := mkElement (Some (u t)) (u t) (u t).

(** A detail page with every field: title, series, authors, publisher,
    ISBN, date, description and a cover that ends in [/M]. *)
Definition book : Page :=
  {| h1_a := [elem " The Tombs of Atuan "];
     og_title := [u "The Tombs of Atuan"];
     series_a := [elem "Earthsea-2"];
     title_p := [elem "Ursula Le Guin, Lee | translated | Golden Bough | 2006"];
     isbn10_p := [elem " 9788983920683 "];
     pdDate_p := [mkElement (Some [50; 48; 49; 49; 45380; 32; 56; 50900; 32; 51; 48; 51068]) [] []];
     description_p := [elem "<p>A girl is taken to the Tombs.</p> "];
     og_image := [u "http://image.yes24.com/goods/2128248/M"];
     goods_infogrp := [] |}.

(** The same page with a [p] under [dd class='isbn10'] that starts with a
    child element, so that its [.text] is [None]. *)
Definition book_isbn_in_child : Page :=
  {| h1_a := h1_a book; og_title := og_title book; series_a := series_a book;
     title_p := title_p book;
     isbn10_p := [mkElement None (u "9788983920683") (u "<p><b>9788983920683</b></p>")];
     pdDate_p := pdDate_p book; description_p := description_p book;
     og_image := og_image book; goods_infogrp := [] |}.

(** The same page with an [h1/a] that starts with a child element. *)
Definition book_title_in_child : Page :=
  {| h1_a := [mkElement None (u "The Tombs of Atuan") (u "<a><b>The Tombs of Atuan</b></a>")];
     og_title := og_title book; series_a := series_a book;
     title_p := title_p book; isbn10_p := isbn10_p book;
     pdDate_p := pdDate_p book; description_p := description_p book;
     og_image := og_image book; goods_infogrp := [] |}.

(** A page of the site without [h1/a] and without [og:title]. *)
Definition untitled : Page :=
  {| h1_a := []; og_title := []; series_a := [];
     title_p := [elem "Ursula Le Guin | Golden Bough | 2006"];
     isbn10_p := []; pdDate_p := []; description_p := [];
     og_image := []; goods_infogrp := [] |}.

(** Another edition: the same ISBN, no [og:image]. *)
Definition reprint : Page :=
  {| h1_a := [elem "The Tombs of Atuan (reprint)"]; og_title := []; series_a := [];
     title_p := [elem "Ursula Le Guin | Golden Bough | 2012"];
     isbn10_p := [elem "9788983920683"]; pdDate_p := []; description_p := [];
     og_image := []; goods_infogrp := [] |}.

(** A page whose cover URL has [/M] twice. *)
Definition record_sleeve : Page :=
  {| h1_a := [elem "Abbey Road"]; og_title := []; series_a := [];
     title_p := [elem "The Beatles | Apple"];
     isbn10_p := []; pdDate_p := []; description_p := [];
     og_image := [u "http://image.yes24.com/Music/72289/M"];
     goods_infogrp := [] |}.

(** A result listing of two cells, and one whose second cell has no
    [goods_name] link. *)
Definition listing : Page :=
  {| h1_a := []; og_title := []; series_a := []; title_p := [];
     isbn10_p := []; pdDate_p := []; description_p := []; og_image := [];
     goods_infogrp :=
       [mkCell [u "/24/goods/2128248"; u "/24/goods/2128248?scode=032"];
        mkCell [u "/24/goods/6185205"]] |}.

(** A listing whose first cell has no [goods_name] link. *)
Definition listing_with_bare_cell : Page :=
  {| h1_a := []; og_title := []; series_a := []; title_p := [];
     isbn10_p := []; pdDate_p := []; description_p := []; og_image := [];
     goods_infogrp := [mkCell []; mkCell [u "/24/goods/6185205"]] |}.

Definition documents : list (unicode * Page) :=
  [(u "<html>book</html>", book);
   (u "<html>book, isbn in child</html>", book_isbn_in_child);
   (u "<html>book, title in child</html>", book_title_in_child);
   (u "<html>untitled</html>", untitled);
   (u "<html>reprint</html>", reprint);
   (u "<html>record sleeve</html>", record_sleeve);
   (u "<html>listing</html>", listing);
   (u "<html>listing, bare cell</html>", listing_with_bare_cell)].

Definition lxml (raw : unicode) : exc Page :=
  match (list_to_map documents : gmap unicode Page) !! raw with
  | Some page => Ok page
  | None => Raise ParserError
  end.

Definition host : Host :=
  {| check_isbn := isbn13;
     euc_kr_table := hangul;
     decode_euc_kr := decode_ascii;
     fromstring := lxml;
     float := float_of_digits;
     clean_downloaded_metadata := fun mi => mi |}.

(** The site: which document it serves under which URL. *)
Definition site (pages : list (unicode * response)) : unicode -> response :=
  fun url =>
    default (OpenFailed (mkFetchError (Some 404%Z) false))
      ((list_to_map pages : gmap unicode response) !! url).

(** A session that has not started: nothing opened, logged, queued or
    cached. *)
Definition fresh (pages : list (unicode * response)) : World :=
  mkWorld (site pages) [] [] [] ∅ ∅.

Definition atuan_url : unicode := u "http://www.yes24.com/24/goods/2128248".
Definition reprint_url : unicode := u "http://www.yes24.com/24/goods/6185205".

Definition bookshop : World :=
  fresh [(atuan_url, Body (u "<html>book</html> "));
         (reprint_url, Body (u "<html>reprint</html>"));
         (u "http://www.yes24.com/24/goods/1", Body (u "<html>untitled</html>"));
         (u "http://www.yes24.com/24/goods/2", ReadFailed (mkFetchError None true));
         (u "http://www.yes24.com/searchcorner/Search?domain=BOOK&query=9788983920683",
          Body (u "<html>listing</html>"));
         (u "http://www.yes24.com/searchcorner/Search?domain=BOOK&query=Atuan",
          Body (u "<html>listing, bare cell</html>"))].

End example.

(** ** The rest of __init__.py *)

(** [YES24.get_book_url]: type, id and URL of the book's page, [None] when
    the identifiers have no YES24 id. *)
Definition get_book_url (identifiers : gmap unicode unicode)
  : option (unicode * unicode * unicode) :=
  let yes24_id := identifiers !! u "yes24" in
  if truthy yes24_id
  then let id := default [] yes24_id in
       Some (u "yes24", id, BROWSE_URL ++ u "/" ++ id)
  else None.

(** [results.sort(key=...)]: a stable sort. [le a b] tells that the key of
    [a] is not above the key of [b]; the keys are those of calibre's
    [identify_results_keygen]. *)
Fixpoint insert_sorted {A} (le : A -> A -> bool) (x : A) (xs : list A) : list A :=
  match xs with
  | [] => [x]
  | y :: ys => if le x y then x :: xs else y :: insert_sorted le x ys
  end.

Definition sort_by {A} (le : A -> A -> bool) (xs : list A) : list A :=
  foldr (insert_sorted le) [] xs.

Module cover.

(** The state of [download_cover]: the shared objects, with the queue [rq]
    of its own [identify] in [result_queue], and the [result_queue] it was
    given, which gets the cover data. *)
Definition State : Type := World * list bytes.

Definition on_plugin {A} (m : M World A) : M State A :=
  fun '(w, covers) => let '(r, w') := m w in (r, (w', covers)).

Definition plugin : M State World := fun s => (Ok (fst s), s).

(** [rq = Queue()]. *)
Definition new_queue (w : World) : World :=
  mkWorld (web w) (opened w) (log w) []
    (_isbn_to_identifier_cache w) (_identifier_to_cover_url_cache w).

(** [result_queue.put((self, cdata))]. *)
Definition put (cdata : bytes) : M State unit :=
  modify (fun '(w, covers) => (w, covers ++ [cdata])).

End cover.

Section download.
Context `{Host}.

(** The loop of [download_cover] over the sorted results: the cached cover
    of the first result that has one. *)
Fixpoint first_cached (results : list Metadata) (w : World) : option unicode :=
  match results with
  | [] => None
  | mi :: results' =>
      match get_cached_cover_url (mi_identifiers mi) w with
      | Some cached_url => Some cached_url
      | None => first_cached results' w
      end
  end.

(** [YES24.download_cover]. [le] orders the keys of the results. The three
    flags are what [abort.is_set()] answers inside [identify], after it, and
    before the download. The workers of [identify] are run one after the
    other; [identify] only returns with abort unset when all of them have
    ended. *)
Definition download_cover (le : Metadata -> Metadata -> bool)
    (abort_in_identify abort_after_identify abort_before_download : bool)
    (title : option basestring) (authors : option (list basestring))
    (identifiers : gmap unicode unicode) : M cover.State unit :=
  w <- cover.plugin;;
  let cached_url := get_cached_cover_url identifiers w in
  found <-
    match cached_url with
    | Some _ => ret (Some cached_url)
    | None =>
        cover.on_plugin
          (world.log_ INFO "No cached cover found, running identify" []);;
        cover.on_plugin (modify cover.new_queue);;
        started <- cover.on_plugin
                     (identify abort_in_identify title authors identifiers);;
        cover.on_plugin (modify (runs (snd started)));;
        if abort_after_identify then ret None
        else
          w <- cover.plugin;;
          let results := result_queue w in
          cover.on_plugin (modify cover.new_queue);;
          let results := sort_by le results in
          ret (Some (first_cached results w))
    end;;
  match found with
  | None => ret tt
  | Some None =>
      cover.on_plugin (world.log_ INFO "No cover found" [])
  | Some (Some cached_url) =>
      if abort_before_download then ret tt
      else
        cover.on_plugin
          (world.log_ INFO "Downloading cover from:" [VText cached_url]);;
        try_except
          (response <- cover.on_plugin (world.open_novisit cached_url);;
           cdata <- lift response;;
           cover.put cdata)
          (fun _ =>
             cover.on_plugin
               (world.log_ EXCEPTION "Failed to download cover from:"
                  [VText cached_url]))
  end.

End download.

(** ** What [parse_details] leaves behind on a complete page *)

Section after.
Context `{Host}.

(** The worker after [parse_details]. *)
Definition worker_after (w : Worker) (root : Page) : Worker :=
  let isbn_found := field (parse_isbn root) in
  mkWorker (url w)
    (match og_image root with [] => relevance w | _ :: _ => relevance w + 5 end)%Z
    (cover_of root)
    (found_id (url w))
    (if truthy isbn_found then isbn_found else isbn w).

(** The shared objects after [parse_details]. *)
Definition world_after (w : Worker) (s : World) (root : Page) : World :=
  let id := default [] (found_id (url w)) in
  let isbn_after := isbn (worker_after w root) in
  mkWorld (web s) (opened s)
    (log s ++ field_errors (url w) root)
    (result_queue s ++ [record_of (url w) (relevance w) root])
    (if truthy isbn_after
     then <[default [] isbn_after := id]> (_isbn_to_identifier_cache s)
     else _isbn_to_identifier_cache s)
    (match cover_of root with
     | Some page_url => <[id := page_url]> (_identifier_to_cover_url_cache s)
     | None => _identifier_to_cover_url_cache s
     end).

End after.

(** Text without white space at either end. *)
Definition stripped (s : unicode) : Prop :=
  (forall c s', s = c :: s' -> Py_UNICODE_ISSPACE c = false)
  /\ (forall c s', s = s' ++ [c] -> Py_UNICODE_ISSPACE c = false).

(** The characters [quote] may put out. *)
Definition quoted_alphabet : list N := always_safe ++ u "/%".

(** A title's spaces turned into the [+] of the query. *)
Definition plus_for_space (t : unicode) : unicode :=
  (fun c => if c =? 32 then 43 else c) <$> t.

(** ** The test of [parse_details] *)

Section test.
Context `{Host}.

(** What [parse_details] logs before the test, one entry per parser that
    raised. *)
Definition key_errors (url : unicode) (root : Page) : list entry :=
  (if raised (parse_yes24_id url)
   then [Log EXCEPTION "Error parsing YES24 id for url: %r" [VText url]] else [])
  ++ (if raised (parse_title_series root)
      then [Log EXCEPTION "Error parsing title and series for url: %r" [VText url]]
      else [])
  ++ (if raised (parse_authors root)
      then [Log EXCEPTION "Error parsing authors for url: %r" [VText url]] else []).

(** What [parse_details] logs when the test sends it back. *)
Definition not_found_errors (url : unicode) (root : Page) : list entry :=
  [Log ERROR "Could not find title/authors/YES24 id for %r" [VText url];
   Log ERROR "YES24: %r Title: %r Authors: %r"
     [value_of_option (found_id url); value_of_option (found_title root).1.1;
      from_option VList VNone (found_authors root)]].

End test.

(** ** Failures of [_create_query] and the one way to the workers *)

(** The exception of a title or an author that cannot be quoted: a byte
    string fails in [split], where it is decoded as ASCII, a [unicode] in
    [encode]. *)
Definition codec_error (s : basestring) : exception :=
  match s with
  | Str _ => UnicodeDecodeError
  | Unicode _ => UnicodeEncodeError
  end.

Section paths.
Context `{Host}.

(** The conditions under which [identify] gets as far as its workers. *)
Inductive reaches_workers (title : option basestring)
    (authors : option (list basestring)) (identifiers : gmap unicode unicode)
    (s : World) (matches : list unicode) : Prop :=
  | by_yes24_id (id : unicode) :
      identifiers !! u "yes24" = Some id -> id <> [] ->
      matches = [BROWSE_URL ++ u "/" ++ id] ->
      reaches_workers title authors identifiers s matches
  | by_search (query : unicode) (raw : bytes) (root : Page) :
      truthy (identifiers !! u "yes24") = false ->
      _create_query title authors identifiers = Ok (Some query) ->
      web s query = Body raw ->
      decode_euc_kr (strip_bytes raw) <> [] ->
      fromstring (decode_euc_kr (strip_bytes raw)) = Ok root ->
      _parse_search_results root [] = (Ok tt, matches) ->
      reaches_workers title authors identifiers s matches.

End paths.

(** ** More pages for the example host *)

Module sample.

(** A page that has its title only in [og:title]. *)
Definition og_only : Page :=
  {| h1_a := []; og_title := [u "The Tombs of Atuan"]; series_a := [];
     title_p := [example.elem "Ursula Le Guin | Golden Bough | 2006"];
     isbn10_p := []; pdDate_p := []; description_p := [];
     og_image := [u "http://image.yes24.com/goods/2128248/M"];
     goods_infogrp := [] |}.

(** A page whose series name has a hyphen and no number. *)
Definition sci_fi : Page :=
  {| h1_a := [example.elem "Solaris"]; og_title := [];
     series_a := [example.elem " Sci-Fi "];
     title_p := [example.elem "Stanislaw Lem | Minumsa"];
     isbn10_p := []; pdDate_p := []; description_p := [];
     og_image := []; goods_infogrp := [] |}.

(** A page whose [og:image] is blank. *)
Definition blank_cover : Page :=
  {| h1_a := [example.elem "Solaris"]; og_title := []; series_a := [];
     title_p := [example.elem "Stanislaw Lem | Minumsa"];
     isbn10_p := []; pdDate_p := []; description_p := [];
     og_image := [u "  "]; goods_infogrp := [] |}.

End sample.

(** * Properties *)

(** ** The text operations, on the strings of the source's comments and
    tests *)

Example split_keeps_empty_pieces :
  split 32 (u "a  b") = [u "a"; []; u "b"] /\ split 32 [] = [[]].
Proof. split; reflexivity. Qed.

Example rsplit1_cuts_at_the_last_hyphen :
  rsplit1 45 (u "Earthsea-Cycle-2") = [u "Earthsea-Cycle"; u "2"]
  /\ rsplit1 45 (u "Earthsea") = [u "Earthsea"].
Proof. split; reflexivity. Qed.

Example strip_both_ends :
  strip ([12288; 9] ++ u "a b" ++ [10; 160]) = u "a b".
Proof. reflexivity. Qed.

Example replace_is_global :
  replace (u "/M") (u "/L") (u "/M/MM/") = u "/L/LM/"
  /\ replace [] (u "-") (u "ab") = u "-a-b-".
Proof. split; reflexivity. Qed.

Example quote_escapes_bytes :
  quote ([177; 232] ++ u "a b/c~") = u "%B1%E8a%20b/c%7E".
Proof. reflexivity. Qed.

Example parse_yes24_id_of_a_book_url :
  parse_yes24_id (u "http://www.yes24.com/24/goods/2128248?scode=032") = Ok (u "2128248")
  /\ parse_yes24_id (u "http://www.yes24.com/24/Goods/") = Raise AttributeError.
Proof. split; reflexivity. Qed.

Example _convert_date_text_of_the_comment :
  _convert_date_text [50; 48; 49; 49; 45380; 32; 56; 50900; 32; 51; 48; 51068]
  = Ok (Datetime 2011 8 30)
  /\ _convert_date_text [50; 48; 49; 49; 45380; 32; 50; 50900; 32; 51; 48; 51068]
     = Raise ValueError
  /\ _convert_date_text (u "2011-08-30") = Raise AttributeError.
Proof. repeat split; reflexivity. Qed.

Create HintDb caches.

Lemma grown_refl (d : gmap unicode unicode) : grown d d.
Proof. intros k Hk; exact Hk. Qed.

Lemma grown_insert (d : gmap unicode unicode) (k v : unicode) :
  grown d (<[k := v]> d).
Proof.
  intros j Hj. destruct (decide (k = j)) as [->|Hne].
  - rewrite lookup_insert_eq. eauto.
  - rewrite lookup_insert_ne; auto.
Qed.

Lemma grown_trans (a b c : gmap unicode unicode) :
  grown a b -> grown b c -> grown a c.
Proof. intros Hab Hbc k Hk. apply Hbc, Hab, Hk. Qed.

#[local] Hint Resolve grown_refl grown_insert : caches.

Lemma isbn_is_not_yes24 : u "isbn" <> u "yes24".
Proof. discriminate. Qed.

(** ** [parse_details] *)

Section parse_details_facts.
Context `{Host}.

(** One pass over every way the parsers of a page can come out. *)
Lemma parse_details_summary (root : Page) (w : Worker) (s : World) :
  exists w' s',
    parse_details root (w, s) = (Ok tt, (w', s'))
    /\ url w' = url w
    /\ web s' = web s
    /\ opened s' = opened s
    /\ result_queue s' =
         result_queue s ++
         (if complete (url w) root then [record_of (url w) (relevance w) root] else [])
    /\ (if complete (url w) root
        then log s' = log s ++ field_errors (url w) root
        else True)
    /\ (exists entries, log s' = log s ++ entries)
    /\ grown (_isbn_to_identifier_cache s) (_isbn_to_identifier_cache s')
    /\ grown (_identifier_to_cover_url_cache s) (_identifier_to_cover_url_cache s').
Proof.
  unfold parse_details, complete, record_of, draft_of, field_errors,
    found_id, found_title, found_authors.
  unfold bind, try_except, lift, self, ret, log_exception, log_error,
    on_world, on_self, modify, world.log_.
  cbn [fst snd].
  destruct (parse_yes24_id (url w)) as [[|c id]|e1];
  destruct (parse_title_series root) as [[[[[|c2 title]|] series] idx]|e2];
  destruct (parse_authors root) as [[[|c3 authors]|]|e3]; cbn;
  try (eexists _, _; repeat split; cbn; rewrite <- ?app_assoc, ?app_nil_r;
       first [reflexivity | apply grown_refl | eexists; reflexivity]).
  all: unfold parse_cover, cover_of, bind, self, ret, on_self, on_world, modify.
  all: destruct (parse_isbn root) as [[[|c4 i]|]|e4]; cbn.
  all: destruct (parse_comments root) as [cm|e5]; cbn.
  all: destruct (og_image root) as [|image rest]; cbn.
  all: destruct (parse_publisher root) as [pb|e6]; cbn.
  all: destruct (parse_published_date root) as [pd|e7]; cbn.
  all: destruct (isbn w) as [[|c5 i0]|]; cbn.
  all: destruct series as [[|c6 sr]|]; cbn.
  all: eexists _, _; repeat split; cbn; rewrite <- ?app_assoc, ?app_nil_r; cbn;
    first [reflexivity | solve [auto with caches] | eexists; reflexivity
          | exists []; rewrite app_nil_r; reflexivity].
Qed.

(** What [draft_of] holds, field by field. *)
Lemma draft_of_fields (url : unicode) (relevance : Z) (root : Page) :
  complete url root = true ->
  let mi := draft_of url relevance root in
  Some (mi_title mi) = (found_title root).1.1
  /\ Some (mi_authors mi) = found_authors root
  /\ mi_identifiers mi !! u "yes24" = found_id url
  /\ mi_identifiers mi !! u "isbn" =
       (if truthy (field (parse_isbn root)) then field (parse_isbn root) else None)
  /\ mi_comments mi = field (parse_comments root)
  /\ mi_cover_url mi = cover_of root
  /\ mi_has_cover mi = truthy (cover_of root)
  /\ mi_publisher mi = field (parse_publisher root)
  /\ mi_pubdate mi = field (parse_published_date root)
  /\ mi_language mi = Some (u "ko").
Proof.
  unfold complete, draft_of.
  destruct (found_title root) as [[title series] idx].
  destruct (found_authors root) as [[|a authors]|];
  destruct title as [[|c title]|]; destruct (found_id url) as [[|d id]|];
    cbn; try discriminate.
  intros _.
  destruct (field (parse_isbn root)) as [[|c4 i]|];
  destruct series as [[|c6 sr]|]; cbn;
  rewrite ?lookup_insert_eq, ?(lookup_insert_ne _ _ _ _ isbn_is_not_yes24),
    ?(lookup_insert_ne _ (u "yes24") (u "isbn")), ?lookup_empty;
    repeat split; auto using isbn_is_not_yes24.
Qed.

End parse_details_facts.

Section parse_details_more.
Context `{Host}.

(** A parser of the three that raised leaves its value empty. *)
Lemma raised_is_incomplete (url : unicode) (root : Page) :
  raised (parse_yes24_id url) || raised (parse_title_series root)
  || raised (parse_authors root) = true ->
  complete url root = false.
Proof.
  unfold complete, found_id, found_title, found_authors.
  destruct (parse_yes24_id url); destruct (parse_title_series root);
    destruct (parse_authors root); cbn; try discriminate; intros _;
    rewrite ?andb_false_r; reflexivity.
Qed.

(** [parse_details] on a page that fails its test: the exceptions are
    logged, then the two errors, and nothing else changes. *)
Lemma parse_details_incomplete (root : Page) (w : Worker) (s : World) :
  complete (url w) root = false ->
  exists s',
    parse_details root (w, s) = (Ok tt, (w, s'))
    /\ result_queue s' = result_queue s
    /\ log s' = log s ++ key_errors (url w) root ++ not_found_errors (url w) root
    /\ web s' = web s
    /\ opened s' = opened s
    /\ _isbn_to_identifier_cache s' = _isbn_to_identifier_cache s
    /\ _identifier_to_cover_url_cache s' = _identifier_to_cover_url_cache s.
Proof.
  unfold complete, key_errors, not_found_errors, found_id, found_title, found_authors.
  intros Hc.
  unfold parse_details.
  unfold bind, try_except, lift, self, ret, log_exception, log_error,
    on_world, on_self, modify, world.log_.
  cbn [fst snd].
  destruct (parse_yes24_id (url w)) as [[|c id]|e1];
  destruct (parse_title_series root) as [[[[[|c2 title]|] series] idx]|e2];
  destruct (parse_authors root) as [[[|c3 authors]|]|e3];
  try discriminate Hc; cbn;
  eexists; repeat split; cbn; rewrite <- ?app_assoc; reflexivity.
Qed.

End parse_details_more.

(** C1 (as amended). [parse_details] never raises. On every detail page
    whose title, authors and YES24 id were found, it puts the record on the
    queue whatever the parsers of ISBN, comments, cover, publisher and
    publication date do: each of these fields holds what its own parser
    returned, or nothing when that parser raised, and every parser that
    raised is logged once. A parser of the YES24 id, of title and series or
    of the authors that raises is logged once as well, but its value is then
    missing: on every page where one of the three is missing or empty,
    [parse_details] logs the two errors of its test and leaves the queue as
    it was. *)
Theorem parse_details_skips_only_the_failed_field `{Host}
    (w : Worker) (s : World) (root : Page) :
  exists w' s',
    parse_details root (w, s) = (Ok tt, (w', s'))
    /\ (complete (url w) root = true ->
        exists mi,
          result_queue s' = result_queue s ++ [clean_downloaded_metadata mi]
          /\ log s' = log s ++ field_errors (url w) root
          /\ Some (mi_title mi) = (found_title root).1.1
          /\ Some (mi_authors mi) = found_authors root
          /\ mi_identifiers mi !! u "yes24" = found_id (url w)
          /\ mi_identifiers mi !! u "isbn" =
               (if truthy (field (parse_isbn root)) then field (parse_isbn root)
                else None)
          /\ mi_comments mi = field (parse_comments root)
          /\ mi_cover_url mi = cover_of root
          /\ mi_has_cover mi = truthy (cover_of root)
          /\ mi_publisher mi = field (parse_publisher root)
          /\ mi_pubdate mi = field (parse_published_date root)
          /\ mi_language mi = Some (u "ko"))
    /\ (raised (parse_yes24_id (url w)) || raised (parse_title_series root)
        || raised (parse_authors root) = true ->
        complete (url w) root = false)
    /\ (complete (url w) root = false ->
        result_queue s' = result_queue s
        /\ log s' = log s ++ key_errors (url w) root
                     ++ not_found_errors (url w) root).
Proof.
  destruct (complete (url w) root) eqn:Hc.
  - destruct (parse_details_summary root w s)
      as (w' & s' & Hrun & _ & _ & _ & Hq & Hlog & _).
    rewrite Hc in Hq, Hlog.
    exists w', s'. split; [exact Hrun|]. split; [|split].
    + intros _. exists (draft_of (url w) (relevance w) root).
      split; [exact Hq|]. split; [exact Hlog|].
      exact (draft_of_fields (url w) (relevance w) root Hc).
    + intros Hraised. rewrite <- Hc. exact (raised_is_incomplete _ _ Hraised).
    + discriminate.
  - destruct (parse_details_incomplete root w s Hc) as (s' & Hrun & Hq & Hlog & _).
    exists w, s'. split; [exact Hrun|]. split; [discriminate|].
    split; [reflexivity|]. intros _. split; [exact Hq|exact Hlog].
Qed.

(** The ISBN sits in a child element, so [parse_isbn] raises: the record is
    still queued, without ISBN and with its publisher and date. *)
Lemma parse_details_skips_only_the_failed_field_witness :
  exists w' s' mi,
    @parse_details example.host example.book_isbn_in_child
      (Worker_init example.atuan_url 0, example.bookshop) = (Ok tt, (w', s'))
    /\ raised (parse_isbn example.book_isbn_in_child) = true
    /\ result_queue s' = [mi]
    /\ mi_identifiers mi !! u "isbn" = None
    /\ mi_publisher mi = Some (u "Golden Bough")
    /\ mi_pubdate mi = Some (Datetime 2011 8 30).
Proof.
  destruct (@parse_details_skips_only_the_failed_field example.host
              (Worker_init example.atuan_url 0) example.bookshop
              example.book_isbn_in_child)
    as (w' & s' & Hrun & Hcomplete & _).
  destruct (Hcomplete eq_refl)
    as (mi & Hq & _ & _ & _ & _ & Hisbn & _ & _ & _ & Hpub & Hdate & _).
  exists w', s', mi.
  split; [exact Hrun|]. split; [reflexivity|].
  split; [exact Hq|]. split; [exact Hisbn|].
  split; [exact Hpub|exact Hdate].
Defined.

(** C1, as stated, fails for the title: its parser raises on this page (the
    text of [h1/a] is inside a child element), the exception is caught and
    logged, and then no record is produced. *)
Lemma title_failure_suppresses_the_record :
  let st := @parse_details example.host example.book_title_in_child
              (Worker_init example.atuan_url 0, example.bookshop) in
  @parse_title_series example.host example.book_title_in_child = Raise AttributeError
  /\ fst st = Ok tt
  /\ result_queue (snd (snd st)) = []
  /\ log (snd (snd st)) =
       [Log EXCEPTION "Error parsing title and series for url: %r"
          [VText example.atuan_url];
        Log ERROR "Could not find title/authors/YES24 id for %r"
          [VText example.atuan_url];
        Log ERROR "YES24: %r Title: %r Authors: %r"
          [VText (u "2128248"); VNone;
           VList [u "Ursula Le Guin"; u "Lee"]]].
Proof. vm_compute. repeat split. Qed.

(** ** [get_details] and [run] *)

Section get_details_facts.
Context `{Host}.

Lemma get_details_summary (w : Worker) (s : World) :
  exists w' s',
    get_details (w, s) = (Ok tt, (w', s'))
    /\ url w' = url w
    /\ web s' = web s
    /\ opened s' = opened s ++ [url w]
    /\ result_queue s' = result_queue s ++ emitted (url w) (relevance w) (web s (url w))
    /\ match web s (url w) with
       | Body raw =>
           if contains (u "HTTP 404.") (decode_euc_kr (strip_bytes raw))
           then log s' = log s ++ [Log INFO "YES24 url: %r" [VText (url w)];
                                   Log ERROR "URL malformed: %r" [VText (url w)]]
           else True
       | OpenFailed e | ReadFailed e =>
           log s' = log s ++ [Log INFO "YES24 url: %r" [VText (url w)];
                              fetch_failure_entry (url w) e]
       end
    /\ (exists entries, log s' = log s ++ entries)
    /\ grown (_isbn_to_identifier_cache s) (_isbn_to_identifier_cache s')
    /\ grown (_identifier_to_cover_url_cache s) (_identifier_to_cover_url_cache s').
Proof.
  unfold get_details, emitted, fetch_failure_entry.
  unfold bind, try_except, lift, self, ret, log_info, log_error, log_exception,
    on_world, modify, world.log_, world.open_novisit.
  cbn.
  destruct (web s (url w)) as [raw|e|e] eqn:Hweb; cbn.
  - destruct (contains (u "HTTP 404.") (decode_euc_kr (strip_bytes raw))); cbn.
    + eexists _, _; repeat split; cbn; rewrite <- ?app_assoc, ?app_nil_r;
        eauto with caches.
    + destruct (fromstring (decode_euc_kr (strip_bytes raw))) as [root|e]; cbn.
      * set (s1 := world.note_open _ _).
        destruct (parse_details_summary root w s1)
          as (w' & s' & Hrun & Hurl & Hw & Ho & Hq & _ & [entries Hlog] & Hi & Hc).
        exists w', s'. subst s1. cbn in *.
        repeat split; auto.
        rewrite Hlog, <- app_assoc. eauto.
      * eexists _, _; repeat split; cbn; rewrite <- ?app_assoc, ?app_nil_r;
          eauto with caches.
  - destruct (bool_decide (getcode e = Some 404%Z)); [|destruct (args0_is_timeout e)];
      cbn; eexists _, _; repeat split; cbn; rewrite <- ?app_assoc, ?app_nil_r;
      eauto with caches.
  - destruct (bool_decide (getcode e = Some 404%Z)); [|destruct (args0_is_timeout e)];
      cbn; eexists _, _; repeat split; cbn; rewrite <- ?app_assoc, ?app_nil_r;
      eauto with caches.
Qed.

Lemma run_is_get_details (w : Worker) (s : World) :
  run (w, s) = get_details (w, s).
Proof.
  destruct (get_details_summary w s) as (w' & s' & Hrun & _).
  unfold run, bind, self, try_except. cbv beta iota.
  rewrite Hrun. reflexivity.
Qed.

End get_details_facts.

(** C7. [get_details] gives the worker's URL to the browser exactly once,
    whatever happens next; when the fetch fails (a 404, a timeout or any
    other error) it logs that one failure and returns, with nothing put on
    the result queue and no second attempt. The same holds for an answer
    that says 'HTTP 404.' in its text. [run] does nothing else. *)
Theorem get_details_fetches_once `{Host} (w : Worker) (s : World) :
  exists w' s',
    get_details (w, s) = (Ok tt, (w', s'))
    /\ run (w, s) = get_details (w, s)
    /\ opened s' = opened s ++ [url w]
    /\ (forall e,
          web s (url w) = OpenFailed e \/ web s (url w) = ReadFailed e ->
          log s' = log s ++ [Log INFO "YES24 url: %r" [VText (url w)];
                             fetch_failure_entry (url w) e]
          /\ result_queue s' = result_queue s)
    /\ (forall raw,
          web s (url w) = Body raw ->
          contains (u "HTTP 404.") (decode_euc_kr (strip_bytes raw)) = true ->
          log s' = log s ++ [Log INFO "YES24 url: %r" [VText (url w)];
                             Log ERROR "URL malformed: %r" [VText (url w)]]
          /\ result_queue s' = result_queue s).
Proof.
  destruct (get_details_summary w s)
    as (w' & s' & Hrun & _ & _ & Ho & Hq & Hlog & _).
  exists w', s'.
  split; [exact Hrun|]. split; [apply run_is_get_details|].
  split; [exact Ho|]. split.
  - intros e [He|He]; rewrite He in Hlog, Hq; cbn in Hq;
      rewrite app_nil_r in Hq; auto.
  - intros raw Hraw H404. rewrite Hraw in Hlog, Hq. cbn in Hq.
    rewrite H404 in Hlog, Hq. rewrite app_nil_r in Hq. auto.
Qed.

(** The site times out on this URL: one fetch, the timeout logged, an empty
    queue. *)
Lemma get_details_fetches_once_witness :
  let url := u "http://www.yes24.com/24/goods/2" in
  exists w' s',
    @get_details example.host (Worker_init url 3, example.bookshop) = (Ok tt, (w', s'))
    /\ opened s' = [url]
    /\ log s' = [Log INFO "YES24 url: %r" [VText url];
                 Log ERROR "YES24 timed out. Try again later." []]
    /\ result_queue s' = [].
Proof.
  intros url.
  destruct (@get_details_fetches_once example.host (Worker_init url 3) example.bookshop)
    as (w' & s' & Hrun & _ & Ho & Hfail & _).
  destruct (Hfail (mkFetchError None true)) as [Hlog Hq];
    [right; reflexivity|].
  exists w', s'. auto.
Defined.

(** C8. The records a worker puts on the queue are a function of its URL,
    of what the site answers for that URL, and of its relevance: in two
    sessions that agree on the answer for this URL, and differ in anything
    else (the other pages, the log, the queue, the caches: all that other
    workers read or write), the worker adds the same records. *)
Theorem worker_output_is_its_own `{Host}
    (url : unicode) (relevance : Z) (s1 s2 : World) :
  web s1 url = web s2 url ->
  exists records,
    records = emitted url relevance (web s1 url)
    /\ result_queue (run (Worker_init url relevance, s1)).2.2
       = result_queue s1 ++ records
    /\ result_queue (run (Worker_init url relevance, s2)).2.2
       = result_queue s2 ++ records.
Proof.
  intros Hweb. exists (emitted url relevance (web s1 url)).
  split; [reflexivity|].
  rewrite !run_is_get_details.
  destruct (get_details_summary (Worker_init url relevance) s1)
    as (w1 & s1' & Hrun1 & _ & _ & _ & Hq1 & _).
  destruct (get_details_summary (Worker_init url relevance) s2)
    as (w2 & s2' & Hrun2 & _ & _ & _ & Hq2 & _).
  rewrite Hrun1, Hrun2. cbn in *. rewrite Hq1, Hq2, Hweb. auto.
Qed.

(** The same worker in a fresh session and in one where the worker of
    another page has already run. *)
Lemma worker_output_is_its_own_witness :
  let later :=
    (@run example.host (Worker_init example.reprint_url 1, example.bookshop)).2.2 in
  exists mi,
    result_queue
      (@run example.host (Worker_init example.atuan_url 0, example.bookshop)).2.2
    = [mi]
    /\ result_queue (@run example.host (Worker_init example.atuan_url 0, later)).2.2
       = result_queue later ++ [mi]
    /\ length (result_queue later) = 1%nat.
Proof.
  intros later.
  destruct (@worker_output_is_its_own example.host example.atuan_url 0
              example.bookshop later eq_refl)
    as (records & Hrec & Hq1 & Hq2).
  exists (@record_of example.host example.atuan_url 0 example.book).
  subst records.
  split; [exact Hq1|]. split; [exact Hq2|]. reflexivity.
Defined.

(** ** [identify] and its workers *)

Lemma emitted_at_most_one `{Host} (url : unicode) (relevance : Z) (r : response) :
  (length (emitted url relevance r) <= 1)%nat.
Proof.
  unfold emitted. destruct r as [raw|e|e]; cbn; try lia.
  destruct (contains _ _); cbn; try lia.
  destruct (fromstring _) as [root|e]; cbn; try lia.
  destruct (complete url root); cbn; lia.
Qed.

(** C2 (as amended). When the search of [identify] produces the list
    [matches] and abort is not yet set, [identify] starts [workers_for
    matches]: one worker per candidate, the i-th for the i-th URL and with
    relevance i (with abort set it starts none). Each worker then puts at most
    one record on the queue; having retrieved and parsed its page, it puts
    exactly one when title, authors and YES24 id were found on it, and none
    otherwise. *)
Theorem identify_starts_one_worker_per_candidate `{Host} :
  (forall title authors identifiers s matches s1,
      truthy (identifiers !! u "yes24") = false ->
      search title authors identifiers [] s = (Ok (inl matches), s1) ->
      identify false title authors identifiers s
      = (Ok (ReturnNone, workers_for matches),
         world.write_log (Log INFO "  Matches are: " [VList matches]) s1)
      /\ identify true title authors identifiers s = (Ok (ReturnNone, []), s1))
  /\ (forall matches,
        length (workers_for matches) = length matches
        /\ forall i url, matches !! i = Some url ->
             workers_for matches !! i = Some (Worker_init url (Z.of_nat i)))
  /\ (forall w s, exists w' s',
        run (w, s) = (Ok tt, (w', s'))
        /\ result_queue s' = result_queue s ++ emitted (url w) (relevance w) (web s (url w))
        /\ (length (emitted (url w) (relevance w) (web s (url w))) <= 1)%nat)
  /\ (forall w s raw root,
        web s (url w) = Body raw ->
        contains (u "HTTP 404.") (decode_euc_kr (strip_bytes raw)) = false ->
        fromstring (decode_euc_kr (strip_bytes raw)) = Ok root ->
        emitted (url w) (relevance w) (web s (url w))
        = if complete (url w) root then [record_of (url w) (relevance w) root] else []).
Proof.
  split; [|split; [|split]].
  - intros title authors identifiers s matches s1 Hid Hsearch.
    unfold identify, bind. rewrite Hid, Hsearch. split; reflexivity.
  - intros matches. unfold workers_for. split.
    + apply length_imap.
    + intros i url Hi. rewrite list_lookup_imap, Hi. reflexivity.
  - intros w s. rewrite run_is_get_details.
    destruct (get_details_summary w s) as (w' & s' & Hrun & _ & _ & _ & Hq & _).
    exists w', s'. auto using emitted_at_most_one.
  - intros w s raw root Hweb H404 Hroot.
    unfold emitted. rewrite Hweb, H404, Hroot. reflexivity.
Qed.

(** C2, as stated, fails on a page without title: the worker retrieves and
    parses it and puts nothing on the queue. *)
Lemma untitled_page_yields_no_record :
  let url := u "http://www.yes24.com/24/goods/1" in
  let st := @run example.host (Worker_init url 0, example.bookshop) in
  web example.bookshop url = Body (u "<html>untitled</html>")
  /\ @fromstring example.host (u "<html>untitled</html>") = Ok example.untitled
  /\ fst st = Ok tt
  /\ opened st.2.2 = [url]
  /\ result_queue st.2.2 = [].
Proof. vm_compute. repeat split. Qed.

(** The search for an ISBN finds two candidates on the example site: two
    workers, numbered 0 and 1. *)
Lemma identify_starts_one_worker_per_candidate_witness :
  let ids : gmap unicode unicode := {[u "isbn" := u "9788983920683"]} in
  @identify example.host false None None ids example.bookshop
  = (Ok (ReturnNone,
         [Worker_init example.atuan_url 0; Worker_init example.reprint_url 1]),
     world.write_log
       (Log INFO "  Matches are: " [VList [example.atuan_url; example.reprint_url]])
       (snd (@search example.host None None ids [] example.bookshop))).
Proof.
  intros ids.
  destruct (@identify_starts_one_worker_per_candidate example.host) as [Hid _].
  apply (Hid None None ids example.bookshop
           [example.atuan_url; example.reprint_url]); reflexivity.
Defined.

(** ** The caches *)

Section cache_facts.
Context `{Host}.

Lemma run_grows_caches (w : Worker) (s : World) :
  grown (_isbn_to_identifier_cache s) (_isbn_to_identifier_cache (run (w, s)).2.2)
  /\ grown (_identifier_to_cover_url_cache s)
       (_identifier_to_cover_url_cache (run (w, s)).2.2).
Proof.
  rewrite run_is_get_details.
  destruct (get_details_summary w s)
    as (w' & s' & Hrun & _ & _ & _ & _ & _ & _ & Hi & Hc).
  rewrite Hrun. auto.
Qed.

Lemma runs_grow_caches (ws : list Worker) (s : World) :
  grown (_isbn_to_identifier_cache s) (_isbn_to_identifier_cache (runs ws s))
  /\ grown (_identifier_to_cover_url_cache s)
       (_identifier_to_cover_url_cache (runs ws s)).
Proof.
  revert s. induction ws as [|w ws IH]; intros s; cbn.
  - split; apply grown_refl.
  - destruct (run_grows_caches w s) as [Hi Hc].
    destruct (IH (run (w, s)).2.2) as [Hi' Hc'].
    split; eapply grown_trans; eauto.
Qed.

(** Log, queue and list of opened URLs are only ever appended to. *)
Lemma runs_append (ws : list Worker) (s : World) :
  exists urls entries records,
    opened (runs ws s) = opened s ++ urls
    /\ log (runs ws s) = log s ++ entries
    /\ result_queue (runs ws s) = result_queue s ++ records.
Proof.
  revert s. induction ws as [|w ws IH]; intros s; cbn [runs].
  - exists [], [], []. rewrite !app_nil_r. auto.
  - destruct (IH (run (w, s)).2.2) as (urls & entries & records & Ho & Hl & Hq).
    rewrite Ho, Hl, Hq, run_is_get_details.
    destruct (get_details_summary w s)
      as (w' & s' & Hrun & _ & _ & Ho' & Hq' & _ & [entries' Hl'] & _).
    rewrite Hrun. cbn [fst snd]. rewrite Ho', Hl', Hq', <- !app_assoc.
    eexists _, _, _. repeat split; reflexivity.
Qed.

(** [identify] itself writes to neither cache. *)
Lemma identify_keeps_caches (abort_is_set : bool) (title : option basestring)
    (authors : option (list basestring)) (identifiers : gmap unicode unicode)
    (s : World) :
  let s' := snd (identify abort_is_set title authors identifiers s) in
  _isbn_to_identifier_cache s' = _isbn_to_identifier_cache s
  /\ _identifier_to_cover_url_cache s' = _identifier_to_cover_url_cache s.
Proof.
  unfold identify, search, bind, try_except, lift, ret, modify,
    world.log_, world.open_novisit.
  destruct (truthy (identifiers !! u "yes24")); cbn.
  { destruct abort_is_set; cbn; auto. }
  destruct (_create_query title authors identifiers) as [[q|]|e]; cbn; auto.
  destruct (web s q) as [raw|e|e]; cbn; auto.
  destruct (decode_euc_kr (strip_bytes raw)) as [|c raw']; cbn; auto.
  destruct (fromstring (c :: raw')) as [root|e]; cbn; auto.
  destruct (_parse_search_results root []) as [[[]|e] matches]; cbn; auto.
  destruct abort_is_set; cbn; auto.
Qed.

End cache_facts.

(** C6 (as amended). Whatever workers run in a session, the log, the
    result queue and the browser's history are only appended to, and the two
    caches only ever get assignments [d[k] = v]: no key of either cache is
    lost (its value may be replaced), and [identify] itself changes neither.
    So for identifiers that carry a YES24 id, once [get_cached_cover_url]
    returns a URL it returns one after any further runs. *)
Theorem caches_only_grow `{Host} (ws : list Worker) (s : World) :
  (exists urls entries records,
      opened (runs ws s) = opened s ++ urls
      /\ log (runs ws s) = log s ++ entries
      /\ result_queue (runs ws s) = result_queue s ++ records)
  /\ grown (_isbn_to_identifier_cache s) (_isbn_to_identifier_cache (runs ws s))
  /\ grown (_identifier_to_cover_url_cache s)
       (_identifier_to_cover_url_cache (runs ws s))
  /\ (forall abort_is_set title authors identifiers,
        let s' := snd (identify abort_is_set title authors identifiers s) in
        _isbn_to_identifier_cache s' = _isbn_to_identifier_cache s
        /\ _identifier_to_cover_url_cache s' = _identifier_to_cover_url_cache s)
  /\ (forall identifiers y,
        identifiers !! u "yes24" = Some y ->
        is_Some (get_cached_cover_url identifiers s) ->
        is_Some (get_cached_cover_url identifiers (runs ws s))).
Proof.
  destruct (runs_grow_caches ws s) as [Hi Hc].
  split; [apply runs_append|].
  split; [exact Hi|]. split; [exact Hc|]. split.
  - intros. apply identify_keeps_caches.
  - intros identifiers y Hy. unfold get_cached_cover_url. rewrite Hy.
    destruct (truthy (Some y)); [apply Hc|auto].
Qed.

(** After the worker of the first edition, the cover is found under the
    YES24 id, and still is after the worker of the reprint. *)
Lemma caches_only_grow_witness :
  let ids : gmap unicode unicode := {[u "yes24" := u "2128248"]} in
  let s := (@run example.host (Worker_init example.atuan_url 0, example.bookshop)).2.2 in
  get_cached_cover_url ids s = Some (u "http://image.yes24.com/goods/2128248/L")
  /\ is_Some (get_cached_cover_url ids
                (@runs example.host [Worker_init example.reprint_url 1] s)).
Proof.
  intros ids s. split; [reflexivity|].
  destruct (@caches_only_grow example.host [Worker_init example.reprint_url 1] s)
    as (_ & _ & _ & _ & Hcover).
  apply (Hcover ids (u "2128248")); [reflexivity|].
  exists (u "http://image.yes24.com/goods/2128248/L"). reflexivity.
Defined.

(** C6, as stated, fails for identifiers that carry only an ISBN. The first
    worker caches ISBN -> 2128248 and 2128248 -> cover. The second worker's
    page has the same ISBN and no [og:image]: it assigns ISBN -> 6185205, an
    id without cached cover, and the lookup that returned a URL returns
    [None]. *)
Lemma cover_lookup_by_isbn_is_lost :
  let ids : gmap unicode unicode := {[u "isbn" := u "9788983920683"]} in
  let s1 := (@run example.host (Worker_init example.atuan_url 0, example.bookshop)).2.2 in
  let s2 := (@run example.host (Worker_init example.reprint_url 1, s1)).2.2 in
  get_cached_cover_url ids s1 = Some (u "http://image.yes24.com/goods/2128248/L")
  /\ get_cached_cover_url ids s2 = None
  /\ _isbn_to_identifier_cache s1 !! u "9788983920683" = Some (u "2128248")
  /\ _isbn_to_identifier_cache s2 !! u "9788983920683" = Some (u "6185205").
Proof. vm_compute. repeat split. Qed.

(** ** [parse_cover] *)

(** [replace('/M', '/L')] rewrites every occurrence: an [M] becomes [L]
    exactly where a [/] precedes it. *)
Lemma replace_slash_M_pointwise (s : unicode) :
  replace (u "/M") (u "/L") s = M_after_slash_to_L false s.
Proof.
  change (replace (u "/M") (u "/L") s) with (replace_scan [47; 77] [47; 76] s 0).
  remember (length s) as n eqn:Hn.
  revert s Hn. induction (lt_wf n) as [n _ IH]. intros s ->.
  destruct s as [|c s]; [reflexivity|].
  cbn [replace_scan M_after_slash_to_L startswith andb length Nat.sub].
  destruct (47 =? c) eqn:Hc.
  - apply N.eqb_eq in Hc. subst c.
    destruct s as [|d s]; [reflexivity|].
    cbn [startswith andb]. destruct (77 =? d) eqn:Hd.
    + apply N.eqb_eq in Hd. subst d. cbn.
      do 2 f_equal. apply (IH (length s)); [cbn; lia|reflexivity].
    + rewrite N.eqb_refl. cbn [andb]. f_equal.
      rewrite (IH (length (d :: s)) ltac:(cbn; lia) (d :: s) eq_refl).
      cbn [M_after_slash_to_L andb]. rewrite (N.eqb_sym d 77), Hd. reflexivity.
  - cbn [andb]. f_equal.
    rewrite (IH (length s) ltac:(cbn; lia) s eq_refl).
    rewrite (N.eqb_sym c 47), Hc. reflexivity.
Qed.

(** C10 (as amended). For the first [og:image] URL of a page, stripped of
    surrounding white space, [parse_cover] returns it as it is when it does
    not end in [/M]; when it does, it returns it with every occurrence of
    [/M] rewritten to [/L], the final one included. Either way the result
    is cached under the worker's YES24 id when that is set, and the worker's
    relevance goes up by 5. *)
Theorem parse_cover_rewrites_every_M (root : Page) (w : Worker) (s : World)
    (image : unicode) (others : list unicode) :
  og_image root = image :: others ->
  let page_url :=
    if endswith (u "/M") (strip image)
    then M_after_slash_to_L false (strip image)
    else strip image in
  parse_cover root (w, s)
  = (Ok (Some page_url),
     (set_relevance (relevance w + 5) w,
      match yes24_id w with
      | Some (c :: id) => world.cache_identifier_to_cover_url (c :: id) page_url s
      | _ => s
      end)).
Proof.
  intros Himage. unfold parse_cover. rewrite Himage.
  rewrite replace_slash_M_pointwise.
  unfold bind, self, ret, on_world, on_self, modify. cbn [fst snd].
  destruct (yes24_id w) as [[|c id]|]; reflexivity.
Qed.

(** A cover URL of the plugin's own tests: [/M] at the end becomes [/L],
    the URL is cached under the id, the relevance goes from 0 to 5. *)
Lemma parse_cover_rewrites_every_M_witness :
  let w := set_yes24_id (Some (u "2128248")) (Worker_init example.atuan_url 0) in
  let st := parse_cover example.book (w, example.bookshop) in
  fst st = Ok (Some (u "http://image.yes24.com/goods/2128248/L"))
  /\ relevance st.2.1 = 5%Z
  /\ _identifier_to_cover_url_cache st.2.2 !! u "2128248"
     = Some (u "http://image.yes24.com/goods/2128248/L").
Proof.
  intros w st.
  pose proof (parse_cover_rewrites_every_M example.book w example.bookshop _ _ eq_refl)
    as Hcover.
  subst st. rewrite Hcover. vm_compute. repeat split.
Defined.

(** C10, as stated, fails on a URL with [/M] before its end: the source
    rewrites both occurrences, and the claim's reading (the first one
    rewritten, the final [/M] kept) gives another URL. *)
Lemma cover_url_with_two_M :
  let image := u "http://image.yes24.com/Music/72289/M" in
  og_image example.record_sleeve = [image]
  /\ fst (parse_cover example.record_sleeve
            (Worker_init example.atuan_url 0, example.bookshop))
     = Ok (Some (u "http://image.yes24.com/Lusic/72289/L"))
  /\ replace_first (u "/M") (u "/L") image = u "http://image.yes24.com/Lusic/72289/M"
  /\ u "http://image.yes24.com/Lusic/72289/L" <> u "http://image.yes24.com/Lusic/72289/M".
Proof. vm_compute. repeat split. discriminate. Qed.

(** ** [_parse_search_results] *)

Lemma for_result_in_all (cells : list Cell) (matches : list unicode) :
  forallb has_href cells = true ->
  for_result_in cells matches = (Ok tt, matches ++ (candidate <$> cells)).
Proof.
  revert matches. induction cells as [|cell cells IH]; intros matches Hall.
  - cbn. rewrite app_nil_r. reflexivity.
  - cbn in Hall. apply andb_prop in Hall as [Hcell Hall].
    cbn [for_result_in]. unfold bind, lift, modify, has_href in *.
    rewrite fmap_cons. unfold candidate at 1.
    destruct (goods_name_href cell) as [|href hrefs]; [discriminate|].
    cbn. rewrite (IH _ Hall), <- app_assoc. reflexivity.
Qed.

Lemma for_result_in_stops (before after : list Cell) (cell : Cell)
    (matches : list unicode) :
  forallb has_href before = true ->
  has_href cell = false ->
  for_result_in (before ++ cell :: after) matches
  = (Raise IndexError, matches ++ (candidate <$> before)).
Proof.
  revert matches. induction before as [|b before IH]; intros matches Hall Hcell.
  - cbn. unfold bind, lift, item0, has_href in *.
    destruct (goods_name_href cell); [|discriminate].
    rewrite app_nil_r. reflexivity.
  - cbn in Hall. apply andb_prop in Hall as [Hb Hall].
    cbn [for_result_in app]. unfold bind, lift, modify, has_href in *.
    rewrite fmap_cons. unfold candidate at 1.
    destruct (goods_name_href b) as [|href hrefs]; [discriminate|].
    cbn. rewrite (IH _ Hall Hcell), <- app_assoc. reflexivity.
Qed.

(** C5 (as amended). On a listing every cell of which has a [goods_name]
    link, [_parse_search_results] appends to [matches], for every cell in
    document order, the base URL followed by the cell's first [href]; on a
    listing without cells [matches] stays as it is. At the first cell without
    such a link it raises [IndexError], with the URLs of the cells before it
    appended and none of the cells after it. *)
Theorem _parse_search_results_appends_candidates (root : Page) (matches : list unicode) :
  (forallb has_href (goods_infogrp root) = true ->
   _parse_search_results root matches
   = (Ok tt, matches ++ (candidate <$> goods_infogrp root)))
  /\ (goods_infogrp root = [] ->
      _parse_search_results root matches = (Ok tt, matches))
  /\ (forall before cell after,
        goods_infogrp root = before ++ cell :: after ->
        forallb has_href before = true ->
        has_href cell = false ->
        _parse_search_results root matches
        = (Raise IndexError, matches ++ (candidate <$> before))).
Proof.
  unfold _parse_search_results. split; [|split].
  - intros Hall. destruct (goods_infogrp root) as [|cell cells] eqn:Hcells.
    + cbn. rewrite app_nil_r. reflexivity.
    + apply for_result_in_all, Hall.
  - intros ->. reflexivity.
  - intros before cell after Hcells Hall Hcell. rewrite Hcells.
    destruct before as [|b before].
    + apply (for_result_in_stops [] after cell matches Hall Hcell).
    + apply (for_result_in_stops (b :: before) after cell matches Hall Hcell).
Qed.

(** A listing of two cells: two candidates, the first [href] of each. *)
Lemma _parse_search_results_appends_candidates_witness :
  _parse_search_results example.listing [u "http://www.yes24.com/24/Goods/1"]
  = (Ok tt, [u "http://www.yes24.com/24/Goods/1";
             u "http://www.yes24.com/24/goods/2128248";
             u "http://www.yes24.com/24/goods/6185205"]).
Proof.
  destruct (_parse_search_results_appends_candidates example.listing
              [u "http://www.yes24.com/24/Goods/1"]) as [Hall _].
  exact (Hall eq_refl).
Defined.

(** C5, as stated, fails on a listing whose first cell has no [goods_name]
    link: the second cell has one, and its URL is not appended. [identify]
    catches the [IndexError], logs it and starts no worker. *)
Lemma bare_cell_stops_the_listing :
  let ids : gmap unicode unicode := ∅ in
  let st := @identify example.host false (Some (Unicode (u "Atuan"))) None ids
              example.bookshop in
  goods_infogrp example.listing_with_bare_cell
  = [mkCell []; mkCell [u "/24/goods/6185205"]]
  /\ _parse_search_results example.listing_with_bare_cell [] = (Raise IndexError, [])
  /\ fst st = Ok (ReturnError IndexError, [])
  /\ log (snd st) =
       [Log INFO "Querying: %s"
          [VText (u "http://www.yes24.com/searchcorner/Search?domain=BOOK&query=Atuan")];
        Log EXCEPTION "Failed to make identify query" []].
Proof. vm_compute. repeat split. Qed.

(** ** [_create_query] *)

Lemma split_not_nil (sep : N) (s : list N) : split sep s <> [].
Proof.
  destruct s as [|c s]; cbn; [discriminate|].
  destruct (c =? sep); [discriminate|].
  destruct (split sep s); discriminate.
Qed.

Lemma split_pieces (P : N -> bool) (sep : N) (s : list N) :
  forallb P s = true ->
  Forall (fun piece => forallb P piece = true) (split sep s).
Proof.
  induction s as [|c s IH]; cbn; intros Hs.
  - repeat constructor.
  - apply andb_prop in Hs as [Hc Hs]. specialize (IH Hs).
    destruct (c =? sep).
    + constructor; [reflexivity|exact IH].
    + destruct (split sep s) as [|piece pieces].
      * repeat constructor. cbn. rewrite Hc. reflexivity.
      * inversion IH as [|? ? Hpiece Hpieces]; subst.
        constructor; [cbn; rewrite Hc; exact Hpiece|exact Hpieces].
Qed.

Lemma for_each_ok {A B} (f : A -> exc B) (xs : list A) :
  Forall (fun x => exists y, f x = Ok y) xs ->
  exists ys, for_each f xs = Ok ys /\ length ys = length xs.
Proof.
  induction 1 as [|x xs [y Hy] _ (ys & Hys & Hlen)]; cbn.
  - exists []. split; reflexivity.
  - rewrite Hy, Hys. cbn. exists (y :: ys). cbn. rewrite Hlen. split; reflexivity.
Qed.

Section create_query_facts.
Context `{Host}.

Lemma encode_euc_kr_ok (t : unicode) :
  encodable t = true -> exists b, encode_euc_kr t = Ok b.
Proof.
  intros Ht. unfold encode_euc_kr.
  destruct (for_each_ok
              (fun c => if c <? 128 then Ok [c]
                        else if 65535 <? c then Raise UnicodeEncodeError
                        else match euc_kr_table c with
                             | Some b => Ok b
                             | None => Raise UnicodeEncodeError
                             end) t) as (bs & Hbs & _).
  - unfold encodable in Ht. rewrite forallb_forall in Ht.
    apply Forall_forall. intros c Hc. apply list_elem_of_In, Ht in Hc.
    destruct (c <? 128); [eauto|]. cbn in Hc.
    apply andb_prop in Hc as [Hbmp Htable].
    rewrite N.ltb_antisym, Hbmp. cbn.
    apply bool_decide_eq_true in Htable as [b ->]. eauto.
  - rewrite Hbs. cbn. eauto.
Qed.

Lemma ascii_is_encodable (b : bytes) :
  forallb (fun c => c <? 128) b = true -> encodable b = true.
Proof.
  unfold encodable. rewrite !forallb_forall. intros Hb c Hc.
  rewrite (Hb c Hc). reflexivity.
Qed.

(** A title or author within the codec's reach contributes at least one
    token, and no exception. *)
Lemma tokens_of_ok (s : basestring) :
  quotable s = true -> exists qs, tokens_of s = Ok qs /\ qs <> [].
Proof.
  intros Hs. unfold tokens_of.
  assert (exists t, split_space s = Ok (Unicode <$> split 32 t) /\ encodable t = true)
    as (t & -> & Ht).
  { destruct s as [b|t]; cbn in *.
    - rewrite Hs. eauto using ascii_is_encodable.
    - eauto. }
  cbn. destruct (for_each_ok quote_token (Unicode <$> split 32 t)) as (qs & Hqs & Hlen).
  - apply Forall_fmap. apply (Forall_impl _ _ _ (split_pieces _ 32 t Ht)).
    intros piece Hpiece. cbn.
    destruct (encode_euc_kr_ok piece Hpiece) as [b ->]. cbn. eauto.
  - exists qs. split; [exact Hqs|].
    intros ->. rewrite length_fmap in Hlen.
    destruct (split 32 t) eqn:Hsplit; [exact (split_not_nil _ _ Hsplit)|discriminate].
Qed.

(** [_create_query] without a valid ISBN, in terms of the tokens. *)
Lemma _create_query_tokens (title : option basestring)
    (authors : option (list basestring)) (identifiers : gmap unicode unicode) :
  check_isbn (identifiers !! u "isbn") = None ->
  _create_query title authors identifiers
  = exc_bind (if has_title title then tokens_of (default (Str []) title) else Ok [])
      (fun tt =>
    exc_bind (if has_authors authors
              then tokens_of (default (Str []) (head (default [] authors)))
              else Ok [])
      (fun at_ =>
    match tt ++ at_ with
    | [] => Ok None
    | tokens => Ok (Some (SEARCH_URL ++ u "&query=" ++ join (u "+") tokens))
    end)).
Proof.
  intros Hisbn. unfold _create_query, tokens_of, has_title, has_authors.
  rewrite Hisbn.
  destruct title as [t|]; [destruct (nonempty t)|]; cbn;
  try (destruct (split_space t) as [tts|e]; cbn; [|reflexivity];
       destruct (for_each quote_token tts) as [tt|e]; cbn; [|reflexivity]);
  destruct authors as [[|a rest]|]; cbn;
  try (destruct (split_space a) as [ats|e]; cbn; [|reflexivity];
       destruct (for_each quote_token ats) as [at_|e]; cbn; [|reflexivity]);
  rewrite ?app_nil_r;
  try match goal with |- context [length ?l] => destruct l end; reflexivity.
Qed.

End create_query_facts.

Lemma for_each_length {A B} (f : A -> exc B) (xs : list A) (ys : list B) :
  for_each f xs = Ok ys -> length ys = length xs.
Proof.
  revert ys. induction xs as [|x xs IH]; cbn; intros ys Hys.
  - injection Hys as <-. reflexivity.
  - destruct (f x) as [y|e]; [|discriminate]. cbn in Hys.
    destruct (for_each f xs) as [ys'|e]; [|discriminate]. cbn in Hys.
    injection Hys as <-. cbn. rewrite (IH ys' eq_refl). reflexivity.
Qed.

Lemma tokens_of_not_nil `{Host} (s : basestring) (qs : list unicode) :
  tokens_of s = Ok qs -> qs <> [].
Proof.
  unfold tokens_of. intros Hqs ->.
  destruct (split_space s) as [pieces|e] eqn:Hsplit; [|discriminate].
  cbn in Hqs. apply for_each_length in Hqs.
  destruct pieces; [|discriminate].
  destruct s as [b|t]; cbn in Hsplit.
  - destruct (forallb _ b); [|discriminate].
    injection Hsplit as Hsplit. apply fmap_nil_inv in Hsplit.
    exact (split_not_nil _ _ Hsplit).
  - injection Hsplit as Hsplit. apply fmap_nil_inv in Hsplit.
    exact (split_not_nil _ _ Hsplit).
Qed.

Lemma split_pieces_inv (P : N -> bool) (sep : N) (s : list N) :
  P sep = true ->
  Forall (fun piece => forallb P piece = true) (split sep s) ->
  forallb P s = true.
Proof.
  intros Hsep. induction s as [|c s IH]; cbn; [reflexivity|].
  destruct (c =? sep) eqn:Hc.
  - apply N.eqb_eq in Hc. subst c. rewrite Hsep.
    intros Hs. apply Forall_cons in Hs as [_ Hs]. exact (IH Hs).
  - destruct (split sep s) as [|piece pieces].
    + intros Hs. apply Forall_cons in Hs as [Hc' _]. cbn in Hc'.
      rewrite andb_true_r in Hc'. rewrite Hc'. apply IH. constructor.
    + intros Hs. apply Forall_cons in Hs as [Hpiece Hpieces]. cbn in Hpiece.
      apply andb_prop in Hpiece as [Hc' Hpiece]. rewrite Hc'.
      apply IH. constructor; assumption.
Qed.

Section create_query_errors.
Context `{Host}.

(** [encode] raises nothing but [UnicodeEncodeError], and only outside the
    codec's repertoire. *)
Lemma encode_euc_kr_raises (t : unicode) :
  match encode_euc_kr t with
  | Ok _ => encodable t = true
  | Raise e => e = UnicodeEncodeError
  end.
Proof.
  unfold encode_euc_kr, encodable.
  induction t as [|c t IH]; cbn; [reflexivity|].
  destruct (c <? 128) eqn:Hascii; cbn.
  - destruct (for_each _ t); cbn in *; auto.
  - rewrite N.leb_antisym. destruct (65535 <? c); cbn; [reflexivity|].
    destruct (euc_kr_table c) as [b|] eqn:Hc; cbn; [|reflexivity].
    destruct (for_each _ t); cbn in *; [|exact IH].
    exact IH.
Qed.

Lemma quote_tokens_raise (pieces : list unicode) :
  match for_each quote_token (Unicode <$> pieces) with
  | Ok _ => Forall (fun piece => encodable piece = true) pieces
  | Raise e => e = UnicodeEncodeError
  end.
Proof.
  induction pieces as [|piece pieces IH]; cbn; [constructor|].
  pose proof (encode_euc_kr_raises piece) as Hpiece.
  destruct (encode_euc_kr piece) as [b|e]; cbn; [|exact Hpiece].
  destruct (for_each quote_token (Unicode <$> pieces)); cbn; [|exact IH].
  constructor; assumption.
Qed.

(** A title or author outside the codec's reach raises. *)
Lemma tokens_of_raises (s : basestring) :
  quotable s = false -> tokens_of s = Raise (codec_error s).
Proof.
  unfold tokens_of. destruct s as [b|t]; cbn; intros Hs.
  - rewrite Hs. reflexivity.
  - pose proof (quote_tokens_raise (split 32 t)) as Hpieces.
    destruct (for_each quote_token (Unicode <$> split 32 t)) as [qs|e];
      [|rewrite Hpieces; reflexivity].
    exfalso. unfold encodable in Hs.
    rewrite (split_pieces_inv _ 32 t eq_refl Hpieces) in Hs. discriminate.
Qed.

End create_query_errors.

(** C4 (as amended). With a valid ISBN among the identifiers
    [_create_query] returns a search URL. Without one, and when the title and
    the first author are within reach of the [euc-kr] codec (a byte string:
    within ASCII), it returns; what it returns is [None] exactly when there
    is neither a non-empty title nor a non-empty list of authors, and
    otherwise the search URL with a query of one token or more. A non-empty
    title out of reach makes it raise, and so does a first author out of
    reach after a title that did not: [UnicodeEncodeError] for a [unicode],
    [UnicodeDecodeError] for a byte string. When no YES24 id is given,
    [identify] answers [None] with 'Insufficient metadata to construct
    query', opening nothing and starting no worker, and lets the exception
    of [_create_query] pass with nothing done. *)
Theorem _create_query_returns_a_url `{Host} (title : option basestring)
    (authors : option (list basestring)) (identifiers : gmap unicode unicode) :
  (forall isbn,
      check_isbn (identifiers !! u "isbn") = Some isbn ->
      _create_query title authors identifiers
      = Ok (Some (SEARCH_URL ++ u "&query=" ++ isbn)))
  /\ (check_isbn (identifiers !! u "isbn") = None ->
      (has_title title = true -> quotable (default (Str []) title) = true) ->
      (has_authors authors = true ->
       quotable (default (Str []) (head (default [] authors))) = true) ->
      exists r,
        _create_query title authors identifiers = Ok r
        /\ (r = None <-> has_title title = false /\ has_authors authors = false)
        /\ (forall url, r = Some url ->
            exists tokens,
              tokens <> []
              /\ url = SEARCH_URL ++ u "&query=" ++ join (u "+") tokens))
  /\ (check_isbn (identifiers !! u "isbn") = None ->
      has_title title = true ->
      quotable (default (Str []) title) = false ->
      _create_query title authors identifiers
      = Raise (codec_error (default (Str []) title)))
  /\ (check_isbn (identifiers !! u "isbn") = None ->
      (has_title title = true -> quotable (default (Str []) title) = true) ->
      has_authors authors = true ->
      quotable (default (Str []) (head (default [] authors))) = false ->
      _create_query title authors identifiers
      = Raise (codec_error (default (Str []) (head (default [] authors)))))
  /\ (truthy (identifiers !! u "yes24") = false ->
      _create_query title authors identifiers = Ok None ->
      forall abort_is_set s,
        identify abort_is_set title authors identifiers s
        = (Ok (ReturnNone, []),
           world.write_log
             (Log ERROR "Insufficient metadata to construct query" []) s))
  /\ (truthy (identifiers !! u "yes24") = false ->
      forall e,
        _create_query title authors identifiers = Raise e ->
        forall abort_is_set s,
          identify abort_is_set title authors identifiers s = (Raise e, s)).
Proof.
  split; [|split; [|split; [|split; [|split]]]].
  - intros isbn Hisbn. unfold _create_query. rewrite Hisbn. reflexivity.
  - intros Hisbn Htitle Hauthors. rewrite (_create_query_tokens _ _ _ Hisbn).
    destruct (has_title title).
    + destruct (tokens_of_ok _ (Htitle eq_refl)) as (tt & -> & Htt). cbn.
      destruct (has_authors authors).
      * destruct (tokens_of_ok _ (Hauthors eq_refl)) as (at_ & -> & _). cbn.
        destruct tt as [|t0 tt]; [contradiction|]. cbn.
        eexists. split; [reflexivity|].
        split; [split; [discriminate|intros [? _]; discriminate]|].
        intros url [= <-]. exists (t0 :: tt ++ at_). split; [discriminate|reflexivity].
      * cbn. rewrite app_nil_r. destruct tt as [|t0 tt]; [contradiction|].
        eexists. split; [reflexivity|].
        split; [split; [discriminate|intros [? _]; discriminate]|].
        intros url [= <-]. exists (t0 :: tt). split; [discriminate|reflexivity].
    + cbn. destruct (has_authors authors).
      * destruct (tokens_of_ok _ (Hauthors eq_refl)) as (at_ & -> & Hat). cbn.
        destruct at_ as [|a0 at_]; [contradiction|].
        eexists. split; [reflexivity|].
        split; [split; [discriminate|intros [_ ?]; discriminate]|].
        intros url [= <-]. exists (a0 :: at_). split; [discriminate|reflexivity].
      * cbn. exists None. split; [reflexivity|]. split; [split; auto|discriminate].
  - intros Hisbn Htitle Hout. rewrite (_create_query_tokens _ _ _ Hisbn).
    rewrite Htitle, (tokens_of_raises _ Hout). reflexivity.
  - intros Hisbn Htitle Hauthors Hout. rewrite (_create_query_tokens _ _ _ Hisbn).
    rewrite Hauthors, (tokens_of_raises _ Hout).
    destruct (has_title title); [|reflexivity].
    destruct (tokens_of_ok _ (Htitle eq_refl)) as (tt & -> & _). reflexivity.
  - intros Hid Hquery abort_is_set s.
    unfold identify, search, bind, lift, ret, world.log_, modify.
    rewrite Hid, Hquery. reflexivity.
  - intros Hid e Hquery abort_is_set s.
    unfold identify, search, bind, lift, ret, world.log_, modify.
    rewrite Hid, Hquery. reflexivity.
Qed.

(** A Korean title and author: both within the codec, so a URL comes back.
    A byte string with a byte beyond ASCII is out of reach. *)
Lemma _create_query_returns_a_url_witness :
  let title := Some (Unicode [52860; 51032; 32; 45432; 47000]) in
  let authors := Some [Unicode [44608; 54984]] in
  (exists r,
     @_create_query example.host title authors ∅ = Ok r
     /\ (r = None <-> has_title title = false /\ has_authors authors = false)
     /\ (forall url, r = Some url ->
         exists tokens,
           tokens <> []
           /\ url = SEARCH_URL ++ u "&query=" ++ join (u "+") tokens))
  /\ @_create_query example.host (Some (Str [196; 174])) authors ∅
     = Raise UnicodeDecodeError.
Proof.
  intros title authors. split.
  - destruct (@_create_query_returns_a_url example.host title authors ∅)
      as (_ & Hreturns & _).
    apply Hreturns; reflexivity.
  - destruct (@_create_query_returns_a_url example.host
                (Some (Str [196; 174])) authors ∅)
      as (_ & _ & Hraises & _).
    apply Hraises; reflexivity.
Defined.

(** C4, as stated, fails on a title outside the [euc-kr] codec (here the one
    character U+1F600): the title is not empty, and [_create_query] raises
    [UnicodeEncodeError] instead of returning a URL; so does [identify], which
    calls it outside its [try]. *)
Lemma unencodable_title_raises :
  let title := Some (Unicode [128512]) in
  has_title title = true
  /\ @_create_query example.host title None ∅ = Raise UnicodeEncodeError
  /\ fst (@identify example.host false title None ∅ example.bookshop)
     = Raise UnicodeEncodeError
  /\ forall table : N -> option bytes,
       @encode_euc_kr
         {| check_isbn := example.isbn13; euc_kr_table := table;
            decode_euc_kr := example.decode_ascii; fromstring := example.lxml;
            float := example.float_of_digits;
            clean_downloaded_metadata := fun mi => mi |} [128512]
       = Raise UnicodeEncodeError.
Proof. repeat split. Qed.

(** C9. A valid ISBN decides the query alone, whatever title and authors
    are. Without one, the authors after the first never matter, and the query
    is made of the tokens of the title followed by those of the first
    author, joined by [+]. *)
Theorem _create_query_isbn_first_then_first_author `{Host}
    (title : option basestring) (a : basestring) (others : list basestring)
    (identifiers : gmap unicode unicode) :
  (forall isbn,
      check_isbn (identifiers !! u "isbn") = Some isbn ->
      forall title' authors',
        _create_query title' authors' identifiers
        = Ok (Some (SEARCH_URL ++ u "&query=" ++ isbn)))
  /\ _create_query title (Some (a :: others)) identifiers
     = _create_query title (Some [a]) identifiers
  /\ (forall tt at_,
        check_isbn (identifiers !! u "isbn") = None ->
        (if has_title title then tokens_of (default (Str []) title) else Ok [])
        = Ok tt ->
        tokens_of a = Ok at_ ->
        _create_query title (Some (a :: others)) identifiers
        = Ok (Some (SEARCH_URL ++ u "&query=" ++ join (u "+") (tt ++ at_)))).
Proof.
  split; [|split].
  - intros isbn Hisbn title' authors'. unfold _create_query. rewrite Hisbn. reflexivity.
  - unfold _create_query.
    destruct (check_isbn (identifiers !! u "isbn")); reflexivity.
  - intros tt at_ Hisbn Htt Hat.
    rewrite (_create_query_tokens _ _ _ Hisbn), Htt. cbn. rewrite Hat. cbn.
    pose proof (tokens_of_not_nil a at_ Hat) as Hne.
    destruct (tt ++ at_) eqn:Happ; [|reflexivity].
    apply app_eq_nil in Happ as [_ ->]. contradiction.
Qed.

(** The first test of the plugin: the ISBN alone makes the query. And a
    query from title and authors: the second author leaves no trace. *)
Lemma _create_query_isbn_first_then_first_author_witness :
  let title := Some (Unicode [52860; 51032; 32; 45432; 47000]) in
  let kim_hoon := Unicode [44608; 54984] in
  let ids : gmap unicode unicode := {[u "isbn" := u "9788983920683"]} in
  @_create_query example.host title (Some [kim_hoon; Unicode (u "Le Guin")]) ids
  = Ok (Some (u "http://www.yes24.com/searchcorner/Search?domain=BOOK&query=9788983920683"))
  /\ @_create_query example.host title (Some [kim_hoon; Unicode (u "Le Guin")]) ∅
     = Ok (Some (u "http://www.yes24.com/searchcorner/Search?domain=BOOK&query=%C4%AE%C0%C7+%B3%EB%B7%A1+%B1%E8%C8%C6")).
Proof.
  intros title kim_hoon ids. split.
  - destruct (@_create_query_isbn_first_then_first_author example.host title
                kim_hoon [Unicode (u "Le Guin")] ids) as (Hisbn & _).
    apply (Hisbn (u "9788983920683")). reflexivity.
  - destruct (@_create_query_isbn_first_then_first_author example.host title
                kim_hoon [Unicode (u "Le Guin")] ∅) as (_ & _ & Htokens).
    apply (Htokens [u "%C4%AE%C0%C7"; u "%B3%EB%B7%A1"] [u "%B1%E8%C8%C6"]);
      reflexivity.
Defined.

(** ** The polling loop *)

Section polling.
Variable sch : Schedule.

Lemma is_set_later (t t' : nat) :
  (t <= t')%nat -> is_set sch t = true -> is_set sch t' = true.
Proof.
  unfold is_set. destruct (abort_at sch) as [ta|]; [|discriminate].
  intros Hle Ht. apply bool_decide_eq_true in Ht.
  apply bool_decide_eq_true. lia.
Qed.

Lemma is_alive_earlier (w t t' : nat) :
  (t <= t')%nat -> is_alive sch w t = false -> is_alive sch w t' = false.
Proof.
  unfold is_alive. destruct (finish_at sch w) as [tw|]; [|discriminate].
  intros Hle Ht. apply bool_decide_eq_false in Ht.
  apply bool_decide_eq_false. lia.
Qed.

(** One round over the workers: time moves on, and the round ends with
    [a_worker_is_alive] unset only if it was unset before and either abort
    is set or every worker of the round has ended. *)
Lemma for_w_in_spec (workers : list nat) (now : nat) (alive : bool) :
  let '(now', alive') := for_w_in sch workers now alive in
  (now <= now')%nat
  /\ (alive' = false ->
      alive = false
      /\ (is_set sch now' = true
          \/ Forall (fun w => is_alive sch w now' = false) workers)).
Proof.
  revert now alive. induction workers as [|w workers IH]; intros now alive; cbn.
  - split; [lia|]. intros ->. split; [reflexivity|]. right. constructor.
  - destruct (is_set sch (S now)) eqn:Hset.
    + split; [lia|]. intros ->. split; [reflexivity|]. left.
      apply (is_set_later (S now)); [lia|exact Hset].
    + specialize (IH (S (S (S now))) (if is_alive sch w (S (S now)) then true else alive)).
      destruct (for_w_in sch workers (S (S (S now))) _) as [now' alive'].
      destruct IH as [Hle Hdead]. split; [lia|].
      intros Halive'. destruct (Hdead Halive') as [Hw Hrest].
      destruct (is_alive sch w (S (S now))) eqn:Hwalive; [discriminate|].
      split; [exact Hw|]. destruct Hrest as [Hset'|Hall]; [left; exact Hset'|].
      right. constructor; [|exact Hall].
      apply (is_alive_earlier w (S (S now))); [lia|exact Hwalive].
Qed.

(** After abort is set, a round is over within two ticks. *)
Lemma for_w_in_aborted (ta : nat) (workers : list nat) (now : nat) (alive : bool) :
  abort_at sch = Some ta ->
  ((for_w_in sch workers now alive).1 <= Nat.max now (ta + 1) + 2)%nat.
Proof.
  intros Habort. revert now alive.
  induction workers as [|w workers IH]; intros now alive; cbn; [lia|].
  unfold is_set at 1. rewrite Habort.
  destruct (bool_decide (ta <= S now)%nat) eqn:Hset; cbn; [lia|].
  apply bool_decide_eq_false in Hset.
  specialize (IH (S (S (S now))) (if is_alive sch w (S (S now)) then true else alive)).
  lia.
Qed.

Lemma wait_for_workers_spec (fuel : nat) (workers : list nat) (now t : nat) :
  wait_for_workers fuel sch workers now = Some t ->
  (now <= t)%nat
  /\ (is_set sch t = true \/ Forall (fun w => is_alive sch w t = false) workers).
Proof.
  revert now. induction fuel as [|fuel IH]; intros now; cbn; [discriminate|].
  destruct (is_set sch now) eqn:Hset.
  - intros [= <-]. split; [lia|]. left. apply (is_set_later now); [lia|exact Hset].
  - pose proof (for_w_in_spec workers (S now) false) as Hround.
    destruct (for_w_in sch workers (S now) false) as [now' alive'].
    destruct Hround as [Hle Hdead]. destruct alive'; cbn.
    + intros Ht. destruct (IH _ Ht) as [Hle' Hend]. split; [lia|exact Hend].
    + intros [= <-]. split; [lia|]. exact (proj2 (Hdead eq_refl)).
Qed.

Lemma wait_for_workers_aborted (ta fuel : nat) (workers : list nat) (now : nat) :
  abort_at sch = Some ta ->
  (ta - now < fuel)%nat ->
  exists t, wait_for_workers fuel sch workers now = Some t
            /\ (t <= Nat.max now ta + 4)%nat.
Proof.
  intros Habort. revert now.
  induction fuel as [|fuel IH]; intros now Hfuel; [lia|]. cbn.
  unfold is_set at 1. rewrite Habort.
  destruct (bool_decide (ta <= now)%nat) eqn:Hset.
  - exists (S now). split; [reflexivity|lia].
  - apply bool_decide_eq_false in Hset.
    pose proof (for_w_in_aborted ta workers (S now) false Habort) as Hshort.
    pose proof (for_w_in_spec workers (S now) false) as Hround.
    destruct (for_w_in sch workers (S now) false) as [now' alive'].
    cbn in Hshort. destruct Hround as [Hle _]. destruct alive'; cbn.
    + destruct (IH now') as (t & Ht & Hbound); [lia|].
      exists t. split; [exact Ht|].
      destruct (decide (ta <= now')%nat) as [Hpast|Hnot]; [|lia].
      destruct fuel as [|fuel']; [discriminate|]. cbn in Ht.
      unfold is_set in Ht. rewrite Habort in Ht.
      rewrite bool_decide_eq_true_2 in Ht by exact Hpast.
      injection Ht as <-. lia.
    + exists now'. split; [reflexivity|lia].
Qed.

(** A round that starts after every worker has ended finds none alive. *)
Lemma for_w_in_all_ended (workers : list nat) (now : nat) :
  Forall (fun w => is_alive sch w now = false) workers ->
  (for_w_in sch workers now false).2 = false.
Proof.
  revert now. induction workers as [|w workers IH]; intros now Hall; cbn;
    [reflexivity|].
  destruct (is_set sch (S now)); [reflexivity|].
  inversion Hall as [|? ? Hw Hrest]; subst.
  rewrite (is_alive_earlier w now (S (S now))) by (lia || exact Hw).
  apply IH. apply (Forall_impl _ _ _ Hrest). intros w' Hw'.
  apply (is_alive_earlier w' now); [lia|exact Hw'].
Qed.

Lemma wait_for_workers_all_ended (tend fuel : nat) (workers : list nat) (now : nat) :
  Forall (fun w => is_alive sch w tend = false) workers ->
  (tend - now < fuel)%nat ->
  exists t, wait_for_workers fuel sch workers now = Some t.
Proof.
  intros Hall. revert now.
  induction fuel as [|fuel IH]; intros now Hfuel; [lia|]. cbn.
  destruct (is_set sch now); [eauto|].
  pose proof (for_w_in_spec workers (S now) false) as Hround.
  pose proof (for_w_in_all_ended workers (S now)) as Hended.
  destruct (for_w_in sch workers (S now) false) as [now' alive'].
  destruct Hround as [Hle _]. cbn in Hended. destruct alive'; cbn; [|eauto].
  destruct (decide (tend <= S now)%nat) as [Hpast|Hnot].
  - enough (true = false) by discriminate. apply Hended.
    apply (Forall_impl _ _ _ Hall). intros w Hw.
    apply (is_alive_earlier w tend); [lia|exact Hw].
  - apply IH. lia.
Qed.

End polling.

(** C3. When the polling loop of [identify] is left, abort is set or no
    worker is alive any more: it is never left while abort is unset and some
    worker is still alive. Once abort is set the loop is left within four
    ticks of its clock, whatever the workers do; and it is left as well once
    every worker has ended. *)
Theorem wait_for_workers_returns_when_done_or_aborted
    (sch : Schedule) (workers : list nat) (now : nat) :
  (forall fuel t,
      wait_for_workers fuel sch workers now = Some t ->
      is_set sch t = true \/ Forall (fun w => is_alive sch w t = false) workers)
  /\ (forall fuel t w,
        wait_for_workers fuel sch workers now = Some t ->
        w ∈ workers -> is_alive sch w t = true -> is_set sch t = true)
  /\ (forall ta fuel,
        abort_at sch = Some ta ->
        (ta - now < fuel)%nat ->
        exists t, wait_for_workers fuel sch workers now = Some t
                  /\ (t <= Nat.max now ta + 4)%nat)
  /\ (forall tend fuel,
        Forall (fun w => is_alive sch w tend = false) workers ->
        (tend - now < fuel)%nat ->
        exists t, wait_for_workers fuel sch workers now = Some t).
Proof.
  split; [|split; [|split]].
  - intros fuel t Ht. exact (proj2 (wait_for_workers_spec sch fuel workers now t Ht)).
  - intros fuel t w Ht Hw Halive.
    destruct (proj2 (wait_for_workers_spec sch fuel workers now t Ht)) as [Hset|Hall];
      [exact Hset|].
    rewrite Forall_forall in Hall. rewrite (Hall w Hw) in Halive. discriminate.
  - intros ta fuel. apply wait_for_workers_aborted.
  - intros tend fuel. apply wait_for_workers_all_ended.
Qed.

(** Three workers that end at ticks 4, 9 and never; abort at tick 20. The
    loop is left at tick 21, with the third worker alive. *)
Lemma wait_for_workers_returns_when_done_or_aborted_witness :
  let sch := mkSchedule (Some 20%nat)
               (fun w => match w with 0 => Some 4 | 1 => Some 9 | _ => None end)%nat in
  wait_for_workers 10 sch [0; 1; 2]%nat 0 = Some 21%nat
  /\ is_set sch 21 = true
  /\ is_alive sch 2 21 = true.
Proof.
  intros sch.
  destruct (wait_for_workers_returns_when_done_or_aborted sch [0; 1; 2]%nat 0)
    as (_ & Hnever & _ & _).
  split; [reflexivity|].
  split; [|reflexivity].
  apply (Hnever 10%nat 21%nat 2%nat); [reflexivity| |reflexivity].
  apply list_elem_of_In. cbn. auto.
Defined.

(** * Further properties *)

(** ** YES24 ids and book URLs *)

Lemma span_digits_spec (s : list N) :
  forallb is_digit (span_digits s).1 = true
  /\ s = (span_digits s).1 ++ (span_digits s).2
  /\ (forall c r, (span_digits s).2 = c :: r -> is_digit c = false).
Proof.
  induction s as [|c s (IHd & IHs & IHr)]; cbn.
  - repeat split. discriminate.
  - destruct (is_digit c) eqn:Hc.
    + destruct (span_digits s) as [d r]. cbn in *. rewrite Hc, IHd.
      repeat split; [congruence|exact IHr].
    + cbn. repeat split. intros c' r [= <- _]. exact Hc.
Qed.

Lemma span_digits_all (d : list N) :
  forallb is_digit d = true -> span_digits d = (d, []).
Proof.
  induction d as [|c d IH]; cbn; [reflexivity|].
  intros Hd. apply andb_prop in Hd as [Hc Hd]. rewrite Hc, (IH Hd). reflexivity.
Qed.

Lemma search_then_digits_here (p : list atom) (s d : list N) :
  match_then_digits p s = Some d -> search_then_digits p s = Some d.
Proof. intros Hd. destruct s; cbn; rewrite Hd; reflexivity. Qed.

Lemma search_then_digits_skip (p : list atom) (c : N) (s : list N) :
  match_atoms p (c :: s) = None ->
  search_then_digits p (c :: s) = search_then_digits p s.
Proof.
  intros Hno. cbn [search_then_digits]. unfold match_then_digits at 1.
  rewrite Hno. reflexivity.
Qed.

Lemma search_then_digits_digits (p : list atom) (s d : list N) :
  search_then_digits p s = Some d -> d <> [] /\ forallb is_digit d = true.
Proof.
  assert (forall s, match_then_digits p s = Some d ->
                    d <> [] /\ forallb is_digit d = true) as Hhere.
  { intros s'. unfold match_then_digits.
    destruct (match_atoms p s') as [r|]; [|discriminate].
    pose proof (span_digits_spec r) as (Hd & _).
    destruct (span_digits r) as [[|c d'] r']; [discriminate|].
    intros [= <-]. split; [discriminate|exact Hd]. }
  induction s as [|c s IH]; cbn.
  - destruct (match_then_digits p []) eqn:Hm; [|discriminate].
    intros [= ->]. eapply Hhere, Hm.
  - destruct (match_then_digits p (c :: s)) eqn:Hm; [|exact IH].
    intros [= ->]. eapply Hhere, Hm.
Qed.

Lemma search_then_digits_book_url (tail d r : list N) :
  span_digits tail = (d, r) -> d <> [] ->
  search_then_digits yes24_id_pattern (u "http://www.yes24.com/24/Goods/" ++ tail)
  = Some d.
Proof.
  intros Hspan Hd. cbv -[span_digits]. rewrite Hspan.
  destruct d; [contradiction|reflexivity].
Qed.

(** X1. The URL that [get_book_url] makes for a YES24 id of decimal digits
    parses back, with [parse_yes24_id], to that id; and [get_book_url]
    answers [None] exactly when the identifiers hold no YES24 id or an empty
    one. *)
Theorem get_book_url_parses_back (identifiers : gmap unicode unicode) :
  (forall typ id url,
      get_book_url identifiers = Some (typ, id, url) ->
      identifiers !! u "yes24" = Some id
      /\ typ = u "yes24"
      /\ url = u "http://www.yes24.com/24/Goods/" ++ id
      /\ (forallb is_digit id = true -> parse_yes24_id url = Ok id))
  /\ (get_book_url identifiers = None <->
      identifiers !! u "yes24" = None \/ identifiers !! u "yes24" = Some []).
Proof.
  unfold get_book_url. split.
  - intros typ id url.
    destruct (identifiers !! u "yes24") as [[|c id']|]; cbn; try discriminate.
    intros [= <- <- <-]. repeat split. intros Hdigits.
    unfold parse_yes24_id.
    match goal with
    | |- context [search_then_digits _ ?x] =>
        replace x with (u "http://www.yes24.com/24/Goods/" ++ c :: id')
          by reflexivity
    end.
    rewrite (search_then_digits_book_url _ _ _ (span_digits_all _ Hdigits));
      [reflexivity|discriminate].
  - destruct (identifiers !! u "yes24") as [[|c id']|]; cbn.
    + split; auto.
    + split; [discriminate|]. intros [?|?]; discriminate.
    + split; auto.
Qed.

(** The id of the plugin's third test. *)
Lemma get_book_url_parses_back_witness :
  let ids : gmap unicode unicode := {[u "yes24" := u "6185205"]} in
  get_book_url ids
  = Some (u "yes24", u "6185205", u "http://www.yes24.com/24/Goods/6185205")
  /\ parse_yes24_id (u "http://www.yes24.com/24/Goods/6185205") = Ok (u "6185205").
Proof.
  intros ids. split; [reflexivity|].
  destruct (get_book_url_parses_back ids) as [Hback _].
  destruct (Hback (u "yes24") (u "6185205")
              (u "http://www.yes24.com/24/Goods/6185205") eq_refl)
    as (_ & _ & _ & Hparse).
  apply Hparse. reflexivity.
Defined.

(** X2. Whatever the URL, an id that [parse_yes24_id] returns is a
    non-empty string of decimal digits; so is the YES24 identifier of every
    record built on a complete page. *)
Theorem parse_yes24_id_gives_digits `{Host} (url : unicode) :
  (forall id, parse_yes24_id url = Ok id ->
              id <> [] /\ forallb is_digit id = true)
  /\ (forall relevance root,
        complete url root = true ->
        exists id,
          mi_identifiers (draft_of url relevance root) !! u "yes24" = Some id
          /\ id <> [] /\ forallb is_digit id = true).
Proof.
  assert (forall id, parse_yes24_id url = Ok id ->
                     id <> [] /\ forallb is_digit id = true) as Hid.
  { intros id. unfold parse_yes24_id.
    destruct (search_then_digits yes24_id_pattern url) as [d|] eqn:Hd;
      [|discriminate].
    intros [= <-]. exact (search_then_digits_digits _ _ _ Hd). }
  split; [exact Hid|].
  intros relevance root Hc.
  destruct (draft_of_fields url relevance root Hc) as (_ & _ & Hyes & _).
  rewrite Hyes. unfold complete, found_id in *.
  destruct (parse_yes24_id url) as [id|e] eqn:Hparse.
  - exists id. split; [reflexivity|]. apply Hid. reflexivity.
  - rewrite !andb_false_r in Hc. discriminate.
Qed.

(** ** Text *)

Lemma lstrip_suffix (sp : N -> bool) (s : list N) :
  exists ws, s = ws ++ lstrip sp s.
Proof.
  induction s as [|c s [ws IH]]; cbn.
  - exists []. reflexivity.
  - destruct (sp c).
    + exists (c :: ws). cbn. congruence.
    + exists []. reflexivity.
Qed.

Lemma lstrip_head (sp : N -> bool) (s : list N) (c : N) (s' : list N) :
  lstrip sp s = c :: s' -> sp c = false.
Proof.
  induction s as [|d s IH]; cbn; [discriminate|].
  destruct (sp d) eqn:Hd; [exact IH|]. intros [= <- _]. exact Hd.
Qed.

Lemma rstrip_prefix (sp : N -> bool) (s : list N) :
  exists ws, s = rstrip sp s ++ ws.
Proof.
  unfold rstrip. destruct (lstrip_suffix sp (rev s)) as [ws Hws].
  exists (rev ws). rewrite <- rev_app_distr, <- Hws, rev_involutive. reflexivity.
Qed.

Lemma rstrip_last (sp : N -> bool) (s : list N) (c : N) (s' : list N) :
  rstrip sp s = s' ++ [c] -> sp c = false.
Proof.
  unfold rstrip. intros Hs.
  apply (lstrip_head sp (rev s) c (rev s')).
  rewrite <- (rev_involutive (lstrip sp (rev s))), Hs, rev_app_distr. reflexivity.
Qed.

Lemma strip_stripped (s : unicode) : stripped (strip s).
Proof.
  unfold strip. split.
  - intros c s' Hs.
    destruct (rstrip_prefix Py_UNICODE_ISSPACE (lstrip Py_UNICODE_ISSPACE s))
      as [ws Hws].
    rewrite Hs in Hws. cbn in Hws. exact (lstrip_head _ _ _ _ Hws).
  - intros c s' Hs. exact (rstrip_last _ _ _ _ Hs).
Qed.

(** What [strip] returns is a segment of what it was given. *)
Lemma strip_segment (s : unicode) :
  exists before after, s = before ++ strip s ++ after.
Proof.
  unfold strip.
  destruct (lstrip_suffix Py_UNICODE_ISSPACE s) as [before Hb].
  destruct (rstrip_prefix Py_UNICODE_ISSPACE (lstrip Py_UNICODE_ISSPACE s))
    as [after Ha].
  exists before, after. rewrite <- Ha. exact Hb.
Qed.

Lemma strip_keeps_out (c : N) (s : unicode) : c ∉ s -> c ∉ strip s.
Proof.
  destruct (strip_segment s) as (before & after & Hs).
  intros Hc Hin. apply Hc. rewrite Hs.
  apply elem_of_app. right. apply elem_of_app. left. exact Hin.
Qed.

Lemma split_free_of_sep (sep : N) (s : list N) :
  Forall (fun piece => sep ∉ piece) (split sep s).
Proof.
  induction s as [|c s IH]; cbn.
  - constructor; [apply not_elem_of_nil|constructor].
  - destruct (c =? sep) eqn:Hc.
    + constructor; [apply not_elem_of_nil|exact IH].
    + apply N.eqb_neq in Hc.
      destruct (split sep s) as [|piece pieces].
      * constructor; [|constructor].
        apply not_elem_of_cons. split; [congruence|apply not_elem_of_nil].
      * apply Forall_cons in IH as [Hpiece Hpieces].
        constructor; [|exact Hpieces].
        apply not_elem_of_cons. split; [congruence|exact Hpiece].
Qed.

(** The pieces of a [split] are pieces of the text: what was not in the
    text is in none of them. *)
Lemma split_keeps_out (c sep : N) (s : list N) :
  c ∉ s -> Forall (fun piece => c ∉ piece) (split sep s).
Proof.
  induction s as [|d s IH]; cbn; intros Hc.
  - constructor; [apply not_elem_of_nil|constructor].
  - apply not_elem_of_cons in Hc as [Hd Hs]. specialize (IH Hs).
    destruct (d =? sep).
    + constructor; [apply not_elem_of_nil|exact IH].
    + destruct (split sep s) as [|piece pieces].
      * constructor; [|constructor].
        apply not_elem_of_cons. split; [exact Hd|apply not_elem_of_nil].
      * apply Forall_cons in IH as [Hpiece Hpieces].
        constructor; [|exact Hpieces].
        apply not_elem_of_cons. split; [exact Hd|exact Hpiece].
Qed.

Lemma join_split (sep : N) (s : list N) : join [sep] (split sep s) = s.
Proof.
  induction s as [|c s IH]; cbn; [reflexivity|].
  destruct (c =? sep) eqn:Hc.
  - apply N.eqb_eq in Hc. subst c.
    pose proof (split_not_nil sep s) as Hne.
    destruct (split sep s) as [|piece pieces]; [contradiction|].
    change (join [sep] ([] :: piece :: pieces))
      with (sep :: join [sep] (piece :: pieces)).
    rewrite IH. reflexivity.
  - destruct (split sep s) as [|piece pieces] eqn:Hsplit.
    + exfalso. exact (split_not_nil _ _ Hsplit).
    + destruct pieces as [|piece' pieces]; cbn in *; congruence.
Qed.

(** ** The brief line: authors and publisher *)

(** X3. [parse_authors] never raises. It finds no authors exactly when the
    page has no brief paragraph; otherwise it returns at least one author,
    and every author is free of commas and bars and has no white space at
    either end. *)
Theorem parse_authors_gives_clean_names (root : Page) :
  exists authors,
    parse_authors root = Ok authors
    /\ (authors = None <-> title_p root = [])
    /\ (forall names, authors = Some names ->
          names <> []
          /\ Forall (fun a => stripped a /\ 44 ∉ a) names
          /\ Forall (fun a => 124 ∉ a) names).
Proof.
  unfold parse_authors. destruct (title_p root) as [|el els].
  - exists None. split; [reflexivity|]. split; [tauto|]. discriminate.
  - pose proof (split_not_nil 124 (text_content el)) as Hne.
    destruct (split 124 (text_content el)) as [|b0 bs] eqn:Hb; [contradiction|].
    cbn. eexists. split; [reflexivity|]. split; [split; discriminate|].
    intros names [= <-]. split; [|split].
    + intros Hnil. apply fmap_nil_inv in Hnil. exact (split_not_nil _ _ Hnil).
    + apply Forall_fmap. apply (Forall_impl _ _ _ (split_free_of_sep 44 b0)).
      intros a Ha. split; [apply strip_stripped|apply strip_keeps_out, Ha].
    + apply Forall_fmap.
      assert (124 ∉ b0) as Hb0.
      { pose proof (split_free_of_sep 124 (text_content el)) as Hall.
        rewrite Hb in Hall. apply Forall_cons in Hall as [Hall _]. exact Hall. }
      apply (Forall_impl _ _ _ (split_keeps_out 124 44 b0 Hb0)).
      intros a Ha. apply strip_keeps_out, Ha.
Qed.

(** X4. [parse_publisher] never raises. It finds no publisher exactly when
    the page has no brief paragraph; otherwise the publisher is one field of
    the brief line, without bar and without white space at either end: the
    last but one of four or more fields, the last of up to three. *)
Theorem parse_publisher_gives_a_field (root : Page) :
  exists publisher,
    parse_publisher root = Ok publisher
    /\ (publisher = None <-> title_p root = [])
    /\ (forall name, publisher = Some name -> stripped name /\ 124 ∉ name)
    /\ (forall el els fields f1 f2,
          title_p root = el :: els ->
          split 124 (text_content el) = fields ++ [f1; f2] ->
          publisher = Some (strip (if (1 <? length fields)%nat then f1 else f2))).
Proof.
  unfold parse_publisher. destruct (title_p root) as [|el els].
  - exists None. split; [reflexivity|]. split; [tauto|].
    split; [discriminate|]. discriminate.
  - pose proof (split_free_of_sep 124 (text_content el)) as Hfree.
    pose proof (split_not_nil 124 (text_content el)) as Hne.
    set (bgrp := split 124 (text_content el)) in *.
    assert (forall k, (k < length bgrp)%nat ->
              exists f, item_from_end (S k) bgrp = Ok f /\ 124 ∉ f) as Hitem.
    { intros k Hk. unfold item_from_end.
      destruct (rev bgrp !! (S k - 1)%nat) as [f|] eqn:Hf.
      - exists f. split; [reflexivity|].
        rewrite Forall_forall in Hfree. apply Hfree.
        apply list_elem_of_In, in_rev, list_elem_of_In.
        eapply list_elem_of_lookup_2, Hf.
      - apply lookup_ge_None in Hf. rewrite length_rev in Hf. lia. }
    assert (exists f, (if (3 <? length bgrp)%nat
                       then item_from_end 2 bgrp else item_from_end 1 bgrp) = Ok f
                      /\ 124 ∉ f) as (f & Hf & Hbar).
    { destruct (3 <? length bgrp)%nat eqn:Hlen.
      - apply Nat.ltb_lt in Hlen. apply Hitem. lia.
      - apply Hitem. destruct bgrp; [contradiction|cbn; lia]. }
    exists (Some (strip f)).
    split.
    { destruct (3 <? length bgrp)%nat; rewrite Hf; reflexivity. }
    split; [split; discriminate|].
    split.
    { intros name [= <-]. split; [apply strip_stripped|apply strip_keeps_out, Hbar]. }
    intros el' els' fields f1 f2 [= <- <-] Hfields. f_equal. f_equal.
    unfold item_from_end in Hf. subst bgrp. rewrite Hfields in Hf.
    rewrite length_app, rev_app_distr in Hf.
    change (length [f1; f2]) with 2%nat in Hf.
    replace (1 <? length fields)%nat with (3 <? length fields + 2)%nat
      by (destruct (Nat.ltb_spec 3 (length fields + 2));
          destruct (Nat.ltb_spec 1 (length fields)); lia || reflexivity).
    destruct (3 <? length fields + 2)%nat; cbn in Hf; congruence.
Qed.

(** ** Dates *)

Lemma span_digits_app (d rest : list N) :
  forallb is_digit d = true ->
  (forall c r, rest = c :: r -> is_digit c = false) ->
  span_digits (d ++ rest) = (d, rest).
Proof.
  intros Hd Hrest. induction d as [|c d IH]; cbn.
  - destruct rest as [|c r]; cbn; [reflexivity|].
    rewrite (Hrest c r eq_refl). reflexivity.
  - cbn in Hd. apply andb_prop in Hd as [Hc Hd].
    rewrite Hc, (IH Hd). reflexivity.
Qed.

(** X5. A date that [_convert_date_text] returns exists in the calendar:
    year 1 to 9999, month 1 to 12, and a day of that month. And a text made
    of three runs of digits with the three Hangul markers is read as the
    numbers it shows, however many digits each has. *)
Theorem _convert_date_text_gives_real_dates :
  (forall date_text d,
      _convert_date_text date_text = Ok d ->
      (1 <= year d <= 9999 /\ 1 <= month d <= 12
       /\ 1 <= day d <= days_in_month (year d) (month d)
       /\ days_in_month (year d) (month d) <= 31)%Z)
  /\ (forall y m d : list N,
        y <> [] -> m <> [] -> d <> [] ->
        forallb is_digit y = true -> forallb is_digit m = true ->
        forallb is_digit d = true ->
        _convert_date_text (y ++ [45380; 32] ++ m ++ [50900; 32] ++ d ++ [51068])
        = datetime_new (int_of_digits y) (int_of_digits m) (int_of_digits d)).
Proof.
  split.
  - intros date_text d. unfold _convert_date_text.
    destruct (match_date date_text) as [[[ys ms] ds]|e]; [|discriminate].
    cbn. unfold datetime_new.
    destruct (_ && _)%bool eqn:Hok; [|discriminate].
    intros [= <-]. cbn.
    repeat (apply andb_prop in Hok as [Hok ?]).
    assert (days_in_month (int_of_digits ys) (int_of_digits ms) <= 31)%Z.
    { unfold days_in_month. repeat destruct (_ =? _)%Z; cbn;
        try destruct (is_leap _); lia. }
    lia.
  - intros y m d Hy Hm Hd Hyd Hmd Hdd.
    unfold _convert_date_text, match_date.
    rewrite (span_digits_app y) by (exact Hyd || (intros c r [= <- _]; reflexivity)).
    destruct y as [|y0 y']; [contradiction|].
    cbn [app].
    rewrite (span_digits_app m) by (exact Hmd || (intros c r [= <- _]; reflexivity)).
    destruct m as [|m0 m']; [contradiction|].
    cbn [app].
    rewrite (span_digits_app d) by (exact Hdd || (intros c r [= <- _]; reflexivity)).
    destruct d as [|d0 d']; [contradiction|].
    reflexivity.
Qed.

(** The date of the comment in the source, and one with leading zeros. *)
Lemma _convert_date_text_gives_real_dates_witness :
  _convert_date_text (u "2011" ++ [45380; 32] ++ u "08" ++ [50900; 32] ++ u "30" ++ [51068])
  = Ok (Datetime 2011 8 30).
Proof.
  destruct _convert_date_text_gives_real_dates as [_ Hread].
  rewrite (Hread (u "2011") (u "08") (u "30")); try discriminate; reflexivity.
Defined.

(** ** Title and series *)

Lemma partition_none (sep : N) (s : list N) : sep ∉ s -> partition sep s = None.
Proof.
  induction s as [|c s IH]; cbn; [reflexivity|]. intros Hs.
  apply not_elem_of_cons in Hs as [Hc Hs].
  rewrite (proj2 (N.eqb_neq c sep)) by congruence. rewrite (IH Hs). reflexivity.
Qed.

Lemma partition_first (sep : N) (a b : list N) :
  sep ∉ a -> partition sep (a ++ sep :: b) = Some (a, b).
Proof.
  induction a as [|c a IH]; cbn; intros Ha.
  - rewrite N.eqb_refl. reflexivity.
  - apply not_elem_of_cons in Ha as [Hc Ha].
    rewrite (proj2 (N.eqb_neq c sep)) by congruence. rewrite (IH Ha). reflexivity.
Qed.

Lemma not_elem_of_rev (c : N) (s : list N) : c ∉ s -> c ∉ rev s.
Proof. intros Hc Hin. apply Hc, list_elem_of_In, in_rev, list_elem_of_In, Hin. Qed.

Lemma rsplit1_without (sep : N) (s : list N) : sep ∉ s -> rsplit1 sep s = [s].
Proof.
  intros Hs. unfold rsplit1. rewrite partition_none; [reflexivity|].
  apply not_elem_of_rev, Hs.
Qed.

Lemma rsplit1_last (sep : N) (a b : list N) :
  sep ∉ b -> rsplit1 sep (a ++ sep :: b) = [a; b].
Proof.
  intros Hb. unfold rsplit1.
  rewrite rev_app_distr. cbn [rev]. rewrite <- app_assoc. cbn [app].
  rewrite partition_first by apply not_elem_of_rev, Hb.
  rewrite !rev_involutive. reflexivity.
Qed.

(** X6. A page without [h1/a] never yields a record: without [og:title]
    the title is [None], and with [og:title] the fallback raises, because
    the attribute value that XPath returns is a string and has no [.text]. *)
Theorem page_without_h1_a_gives_no_record `{Host} (root : Page) :
  h1_a root = [] ->
  parse_title_series root
  = match og_title root with
    | [] => Ok (None, None, None)
    | _ :: _ => Raise AttributeError
    end
  /\ (forall url, complete url root = false)
  /\ (forall url relevance raw,
        fromstring (decode_euc_kr (strip_bytes raw)) = Ok root ->
        emitted url relevance (Body raw) = []).
Proof.
  intros Hh1.
  assert (parse_title_series root
          = match og_title root with
            | [] => Ok (None, None, None)
            | _ :: _ => Raise AttributeError
            end) as Htitle.
  { unfold parse_title_series. rewrite Hh1. cbn.
    destruct (og_title root); reflexivity. }
  assert (forall url, complete url root = false) as Hc.
  { intros url. unfold complete, found_title. rewrite Htitle.
    destruct (og_title root); reflexivity. }
  split; [exact Htitle|]. split; [exact Hc|].
  intros url relevance raw Hroot. unfold emitted. rewrite Hroot, Hc.
  destruct (contains _ _); reflexivity.
Qed.

(** A page with [og:title] and without [h1/a]. *)
Lemma page_without_h1_a_gives_no_record_witness :
  @parse_title_series example.host sample.og_only = Raise AttributeError
  /\ @complete example.host example.atuan_url sample.og_only = false.
Proof.
  destruct (@page_without_h1_a_gives_no_record example.host sample.og_only eq_refl)
    as (Htitle & Hc & _).
  split; [exact Htitle|apply Hc].
Defined.

(** X7. With a title in [h1/a], the series text decides what
    [parse_title_series] does. Without a hyphen the whole text is the series
    and there is no index. With a hyphen the text is cut at the last one, and
    what follows must be a number for [float]: if it is not,
    [parse_title_series] raises [ValueError] and the page yields no record. *)
Theorem series_index_must_be_a_number `{Host} (root : Page)
    (a : Element) (title : unicode) (rest : list Element)
    (el : Element) (t : unicode) (els : list Element) :
  h1_a root = a :: rest -> text a = Some title ->
  series_a root = el :: els -> text el = Some t ->
  (45 ∉ strip t ->
   parse_title_series root = Ok (Some (strip title), Some (strip t), None))
  /\ (forall name idx,
        strip t = name ++ 45 :: idx -> 45 ∉ idx ->
        parse_title_series root
        = match float idx with
          | Some series_index => Ok (Some (strip title), Some name, Some series_index)
          | None => Raise ValueError
          end
        /\ (float idx = None -> forall url, complete url root = false)).
Proof.
  intros Hh1 Ha Hseries Hel.
  assert (forall pieces,
            rsplit1 45 (strip t) = pieces ->
            parse_title_series root
            = match pieces with
              | [series_name; idx] =>
                  match float idx with
                  | Some series_index =>
                      Ok (Some (strip title), Some series_name, Some series_index)
                  | None => Raise ValueError
                  end
              | series_name :: _ => Ok (Some (strip title), Some series_name, None)
              | [] => Raise IndexError
              end) as Hparse.
  { intros pieces <-. unfold parse_title_series.
    rewrite Hh1, Hseries. cbn. unfold text_strip. rewrite Ha, Hel. reflexivity. }
  split.
  - intros Hno. rewrite (Hparse _ (rsplit1_without _ _ Hno)). reflexivity.
  - intros name idx Ht Hidx.
    assert (rsplit1 45 (strip t) = [name; idx]) as Hcut
      by (rewrite Ht; apply rsplit1_last, Hidx).
    split; [exact (Hparse _ Hcut)|].
    intros Hfloat url. unfold complete, found_title.
    rewrite (Hparse _ Hcut), Hfloat. reflexivity.
Qed.

(** The series 'Sci-Fi' costs the book its record. *)
Lemma series_index_must_be_a_number_witness :
  @parse_title_series example.host sample.sci_fi = Raise ValueError
  /\ @complete example.host example.atuan_url sample.sci_fi = false.
Proof.
  destruct (@series_index_must_be_a_number example.host sample.sci_fi
              (example.elem "Solaris") (u "Solaris") []
              (example.elem " Sci-Fi ") (u " Sci-Fi ") []
              eq_refl eq_refl eq_refl eq_refl) as [_ Hcut].
  destruct (Hcut (u "Sci") (u "Fi") eq_refl) as [Hparse Hnone].
  - intros Hin. apply list_elem_of_In in Hin. cbn in Hin.
    destruct Hin as [Hin|[Hin|[]]]; discriminate.
  - split; [exact Hparse|apply Hnone; reflexivity].
Defined.

(** ** Looking up a cached cover *)

(** X8. What [cache_identifier_to_cover_url] stored under a non-empty YES24
    id, [get_cached_cover_url] finds again: directly for identifiers with
    that id, and through [cache_isbn_to_identifier] for identifiers with
    only the ISBN. A YES24 id among the identifiers always wins over the
    ISBN, even an empty one, for which the answer is [None]; and identifiers
    with neither key get [None]. *)
Theorem get_cached_cover_url_finds_what_was_cached
    (s : World) (id url isbn : unicode) (identifiers : gmap unicode unicode) :
  id <> [] ->
  (identifiers !! u "yes24" = Some id ->
   get_cached_cover_url identifiers
     (world.cache_identifier_to_cover_url id url s) = Some url)
  /\ (identifiers !! u "yes24" = None -> identifiers !! u "isbn" = Some isbn ->
      get_cached_cover_url identifiers
        (world.cache_isbn_to_identifier isbn id
           (world.cache_identifier_to_cover_url id url s)) = Some url)
  /\ (identifiers !! u "yes24" = Some [] ->
      get_cached_cover_url identifiers s = None)
  /\ (forall id', identifiers !! u "yes24" = Some id' -> id' <> [] ->
      get_cached_cover_url identifiers s = _identifier_to_cover_url_cache s !! id')
  /\ (identifiers !! u "yes24" = None -> identifiers !! u "isbn" = None ->
      get_cached_cover_url identifiers s = None).
Proof.
  intros Hid. unfold get_cached_cover_url, world.cached_isbn_to_identifier.
  destruct id as [|c id]; [contradiction|].
  repeat split.
  - intros ->. cbn. apply lookup_insert_eq.
  - intros -> ->. cbn. rewrite lookup_insert_eq. cbn. apply lookup_insert_eq.
  - intros ->. reflexivity.
  - intros id' -> Hid'. destruct id'; [contradiction|reflexivity].
  - intros -> ->. reflexivity.
Qed.

Lemma get_cached_cover_url_finds_what_was_cached_witness :
  let ids : gmap unicode unicode := {[u "isbn" := u "9788983920683"]} in
  get_cached_cover_url ids
    (world.cache_isbn_to_identifier (u "9788983920683") (u "2128248")
       (world.cache_identifier_to_cover_url (u "2128248")
          (u "http://image.yes24.com/goods/2128248/L") example.bookshop))
  = Some (u "http://image.yes24.com/goods/2128248/L").
Proof.
  intros ids.
  destruct (get_cached_cover_url_finds_what_was_cached example.bookshop
              (u "2128248") (u "http://image.yes24.com/goods/2128248/L")
              (u "9788983920683") ids) as (_ & Hisbn & _);
    [discriminate|].
  apply Hisbn; reflexivity.
Defined.

(** ** After a worker has run *)

Section after_facts.
Context `{Host}.

(** On a complete page [parse_details] leaves exactly this worker and these
    shared objects. *)
Lemma parse_details_complete (root : Page) (w : Worker) (s : World) :
  complete (url w) root = true ->
  parse_details root (w, s) = (Ok tt, (worker_after w root, world_after w s root)).
Proof.
  unfold parse_details, complete, worker_after, world_after, record_of, draft_of,
    field_errors, found_id, found_title, found_authors.
  unfold bind, try_except, lift, self, ret, log_exception, log_error,
    on_world, on_self, modify, world.log_.
  cbn [fst snd].
  destruct (parse_yes24_id (url w)) as [[|c id]|e1];
  destruct (parse_title_series root) as [[[[[|c2 title]|] series] idx]|e2];
  destruct (parse_authors root) as [[[|c3 authors]|]|e3]; cbn;
    try discriminate.
  intros _.
  unfold parse_cover, cover_of, bind, self, ret, on_self, on_world, modify.
  destruct (parse_isbn root) as [[[|c4 i]|]|e4];
  destruct (parse_comments root) as [cm|e5];
  destruct (og_image root) as [|image rest];
  destruct (parse_publisher root) as [pb|e6];
  destruct (parse_published_date root) as [pd|e7];
  destruct series as [[|c6 sr]|];
  cbn;
  unfold world.put, world.cache_isbn_to_identifier,
    world.cache_identifier_to_cover_url, world.write_log,
    set_relevance, set_cover_url, set_yes24_id, set_isbn; cbn;
  destruct (isbn w) as [[|c5 i0]|];
  cbn; rewrite <- ?app_assoc, ?app_nil_r; reflexivity.
Qed.

(** The same for the whole run of a worker whose page arrives, parses and
    is complete. *)
Lemma run_complete (w : Worker) (s : World) (raw : bytes) (root : Page) :
  web s (url w) = Body raw ->
  contains (u "HTTP 404.") (decode_euc_kr (strip_bytes raw)) = false ->
  fromstring (decode_euc_kr (strip_bytes raw)) = Ok root ->
  complete (url w) root = true ->
  run (w, s)
  = (Ok tt,
     (worker_after w root,
      world_after w
        (world.note_open (url w)
           (world.write_log (Log INFO "YES24 url: %r" [VText (url w)]) s))
        root)).
Proof.
  intros Hweb H404 Hroot Hc. rewrite run_is_get_details.
  unfold get_details.
  unfold bind, try_except, lift, self, ret, log_info, on_world, modify,
    world.log_, world.open_novisit.
  cbn. rewrite Hweb. cbn. rewrite H404, Hroot. cbn.
  apply parse_details_complete, Hc.
Qed.

End after_facts.

(** X9. After a worker has run on a page that is complete and has an
    [og:image], [get_cached_cover_url] finds that page's cover, for
    identifiers that carry the page's YES24 id (as the record's do) and for
    identifiers that carry only the ISBN the page showed. *)
Theorem run_caches_the_cover `{Host} (w : Worker) (s : World) (raw : bytes)
    (root : Page) (page_url : unicode) (identifiers : gmap unicode unicode) :
  web s (url w) = Body raw ->
  contains (u "HTTP 404.") (decode_euc_kr (strip_bytes raw)) = false ->
  fromstring (decode_euc_kr (strip_bytes raw)) = Ok root ->
  complete (url w) root = true ->
  cover_of root = Some page_url ->
  identifiers !! u "yes24" = found_id (url w)
  \/ (identifiers !! u "yes24" = None
      /\ truthy (field (parse_isbn root)) = true
      /\ identifiers !! u "isbn" = field (parse_isbn root)) ->
  get_cached_cover_url identifiers (run (w, s)).2.2 = Some page_url.
Proof.
  intros Hweb H404 Hroot Hc Hcover Hids.
  rewrite (run_complete w s raw root Hweb H404 Hroot Hc). cbn [fst snd].
  assert (exists c id, found_id (url w) = Some (c :: id)) as (c & id & Hid).
  { unfold complete in Hc. destruct (found_id (url w)) as [[|c id]|]; eauto;
      rewrite andb_false_r in Hc; discriminate. }
  unfold get_cached_cover_url, world.cached_isbn_to_identifier, world_after,
    worker_after.
  cbn. rewrite Hcover, Hid. cbn.
  destruct Hids as [Hyes|(Hyes & Htruthy & Hisbn)]; rewrite Hyes.
  - rewrite Hid. cbn. apply lookup_insert_eq.
  - rewrite Hisbn, Htruthy.
    destruct (field (parse_isbn root)) as [[|c' isbn']|]; try discriminate.
    cbn. rewrite lookup_insert_eq. cbn. apply lookup_insert_eq.
Qed.

(** After the worker of the first edition, the cover is found by ISBN. *)
Lemma run_caches_the_cover_witness :
  let ids : gmap unicode unicode := {[u "isbn" := u "9788983920683"]} in
  get_cached_cover_url ids
    (@run example.host (Worker_init example.atuan_url 0, example.bookshop)).2.2
  = Some (u "http://image.yes24.com/goods/2128248/L").
Proof.
  intros ids.
  apply (@run_caches_the_cover example.host (Worker_init example.atuan_url 0)
           example.bookshop (u "<html>book</html> ") example.book);
    try reflexivity.
  right. repeat split.
Defined.

(** X10. On a complete page the record's [source_relevance] is the worker's
    relevance after parsing: the relevance it was created with, plus 5 exactly
    when the page has an [og:image] element. A record with [has_cover] has
    the 5 added; a page without [og:image] gives a record without cover and
    with the relevance unchanged. *)
Theorem cover_adds_five_to_relevance `{Host} (w : Worker) (s : World) (root : Page) :
  complete (url w) root = true ->
  exists w' s' mi,
    parse_details root (w, s) = (Ok tt, (w', s'))
    /\ result_queue s' = result_queue s ++ [clean_downloaded_metadata mi]
    /\ mi_source_relevance mi = Some (relevance w')
    /\ relevance w'
       = (match og_image root with
          | [] => relevance w
          | _ :: _ => relevance w + 5
          end)%Z
    /\ (mi_has_cover mi = true -> relevance w' = (relevance w + 5)%Z)
    /\ (og_image root = [] -> mi_has_cover mi = false /\ mi_cover_url mi = None).
Proof.
  intros Hc. rewrite (parse_details_complete root w s Hc).
  exists (worker_after w root), (world_after w s root),
    (draft_of (url w) (relevance w) root).
  split; [reflexivity|]. split; [reflexivity|].
  destruct (draft_of_fields (url w) (relevance w) root Hc)
    as (_ & _ & _ & _ & _ & Hurl & Hhas & _).
  rewrite Hhas, Hurl. unfold draft_of, worker_after, cover_of.
  destruct (found_title root) as [[title series] idx].
  destruct (og_image root) as [|image rest]; cbn.
  - repeat split; discriminate || reflexivity.
  - repeat split; discriminate || reflexivity.
Qed.

(** A blank [og:image]: no cover, and 5 added all the same. *)
Lemma cover_adds_five_to_relevance_witness :
  (exists w' s' mi,
      @parse_details example.host sample.blank_cover
        (Worker_init example.atuan_url 2, example.bookshop) = (Ok tt, (w', s'))
      /\ result_queue s' = [mi]
      /\ mi_source_relevance mi = Some (relevance w')
      /\ relevance w' = 7%Z)
  /\ mi_has_cover <$>
       result_queue
         (@parse_details example.host sample.blank_cover
            (Worker_init example.atuan_url 2, example.bookshop)).2.2
     = [false].
Proof.
  split; [|reflexivity].
  destruct (@cover_adds_five_to_relevance example.host
              (Worker_init example.atuan_url 2) example.bookshop
              sample.blank_cover eq_refl)
    as (w' & s' & mi & Hrun & Hq & Hrel & Hfive & _).
  exists w', s', mi. auto.
Defined.

(** ** The query string *)

Lemma hex_digit_safe (n : N) : n < 16 -> hex_digit n ∈ always_safe.
Proof.
  intros Hn.
  assert (n ∈ [0; 1; 2; 3; 4; 5; 6; 7; 8; 9; 10; 11; 12; 13; 14; 15]) as Hin.
  { apply list_elem_of_In. cbn.
    destruct n as [|p]; [auto|].
    do 4 (destruct p as [p|p|]; try lia; auto 20). }
  apply list_elem_of_In in Hin. cbn in Hin.
  repeat (destruct Hin as [<-|Hin]; [apply list_elem_of_In; vm_compute; tauto|]).
  destruct Hin.
Qed.

Lemma quote_alphabet (b : bytes) :
  Forall (fun c => c < 256) b -> Forall (fun c => c ∈ quoted_alphabet) (quote b).
Proof.
  unfold quote, quoted_alphabet. induction 1 as [|c b Hc _ IH]; cbn; [constructor|].
  apply Forall_app. split; [|exact IH].
  destruct (bool_decide (c ∈ always_safe ++ u "/")) eqn:Hsafe.
  - apply bool_decide_eq_true in Hsafe. constructor; [|constructor].
    apply elem_of_app in Hsafe as [Hsafe|Hsafe]; apply elem_of_app.
    + left. exact Hsafe.
    + right. apply list_elem_of_In in Hsafe. vm_compute in Hsafe.
      destruct Hsafe as [<-|[]]. apply list_elem_of_In. vm_compute. tauto.
  - apply Forall_cons. split; [|apply Forall_cons; split;
                                 [|apply Forall_cons; split; [|constructor]]].
    + apply elem_of_app. right. apply list_elem_of_In. vm_compute. tauto.
    + apply elem_of_app. left. apply hex_digit_safe.
      apply N.Div0.div_lt_upper_bound. lia.
    + apply elem_of_app. left. apply hex_digit_safe. apply N.mod_lt. lia.
Qed.

Lemma quote_safe (b : bytes) :
  Forall (fun c => c ∈ always_safe ++ u "/") b -> quote b = b.
Proof.
  unfold quote. induction 1 as [|c b Hc _ IH]; cbn; [reflexivity|].
  rewrite bool_decide_eq_true_2 by exact Hc. cbn. rewrite IH. reflexivity.
Qed.

Lemma for_each_Forall {A B} (f : A -> exc B) (P : B -> Prop) (xs : list A) (ys : list B) :
  (forall x y, x ∈ xs -> f x = Ok y -> P y) ->
  for_each f xs = Ok ys -> Forall P ys.
Proof.
  revert ys. induction xs as [|x xs IH]; cbn; intros ys Hf Hys.
  - injection Hys as <-. constructor.
  - destruct (f x) as [y|e] eqn:Hy; [|discriminate]. cbn in Hys.
    destruct (for_each f xs) as [ys'|e]; [|discriminate]. cbn in Hys.
    injection Hys as <-. constructor.
    + apply (Hf x y); [left|exact Hy].
    + apply IH; [|reflexivity]. intros x' y' Hx'. apply Hf. right. exact Hx'.
Qed.

Lemma for_each_id {A} (f : A -> exc A) (xs : list A) :
  Forall (fun x => f x = Ok x) xs -> for_each f xs = Ok xs.
Proof.
  induction 1 as [|x xs Hx _ IH]; cbn; [reflexivity|].
  rewrite Hx, IH. reflexivity.
Qed.

Lemma for_each_fmap {A B} (g : B -> A) (f : A -> exc B) (xs : list B) :
  Forall (fun x => f (g x) = Ok x) xs -> for_each f (g <$> xs) = Ok xs.
Proof.
  induction 1 as [|x xs Hx _ IH]; cbn in *; [reflexivity|].
  rewrite Hx. cbn. rewrite IH. reflexivity.
Qed.

Lemma join_Forall (P : N -> Prop) (sep : list N) (pieces : list (list N)) :
  Forall P sep -> Forall (Forall P) pieces -> Forall P (join sep pieces).
Proof.
  intros Hsep. induction 1 as [|piece pieces Hpiece Hpieces IH]; cbn;
    [constructor|].
  destruct pieces as [|piece' pieces]; [exact Hpiece|].
  apply Forall_app. split; [exact Hpiece|].
  apply Forall_app. split; [exact Hsep|exact IH].
Qed.

Lemma split_Forall (P : N -> Prop) (sep : N) (s : list N) :
  Forall P s -> Forall (Forall P) (split sep s).
Proof.
  induction 1 as [|c s Hc _ IH]; cbn.
  - repeat constructor.
  - destruct (c =? sep).
    + constructor; [constructor|exact IH].
    + destruct (split sep s) as [|piece pieces].
      * repeat constructor. exact Hc.
      * apply Forall_cons in IH as [Hpiece Hpieces].
        constructor; [constructor; assumption|exact Hpieces].
Qed.

Lemma join_plus_split_space (t : unicode) :
  join [43] (split 32 t) = plus_for_space t.
Proof.
  unfold plus_for_space. induction t as [|c t IH]; [reflexivity|].
  cbn [split fmap list_fmap]. destruct (c =? 32) eqn:Hc.
  - pose proof (split_not_nil 32 t) as Hne.
    destruct (split 32 t) as [|piece pieces]; [contradiction|].
    change (join [43] ([] :: piece :: pieces))
      with (43 :: join [43] (piece :: pieces)).
    rewrite IH. reflexivity.
  - destruct (split 32 t) as [|piece pieces] eqn:Hsplit.
    + exfalso. exact (split_not_nil _ _ Hsplit).
    + rewrite <- IH. destruct pieces; reflexivity.
Qed.

Section query_facts.
Context `{Host}.

Lemma encode_euc_kr_bytes (t : unicode) (b : bytes) :
  (forall c bs, euc_kr_table c = Some bs -> Forall (fun x => x < 256) bs) ->
  encode_euc_kr t = Ok b -> Forall (fun x => x < 256) b.
Proof.
  intros Htable. unfold encode_euc_kr.
  destruct (for_each _ t) as [bs|e] eqn:Hbs; [|discriminate].
  cbn. intros [= <-]. apply Forall_concat.
  eapply for_each_Forall; [|exact Hbs].
  cbn. intros c bs' _.
  destruct (c <? 128) eqn:Hascii.
  - intros [= <-]. apply N.ltb_lt in Hascii. repeat constructor. lia.
  - destruct (65535 <? c); [discriminate|].
    destruct (euc_kr_table c) as [b|] eqn:Hb; [|discriminate].
    intros [= <-]. exact (Htable c b Hb).
Qed.

Lemma encode_euc_kr_ascii (t : unicode) :
  Forall (fun c => c < 128) t -> encode_euc_kr t = Ok t.
Proof.
  unfold encode_euc_kr. induction 1 as [|c t Hc _ IH]; [reflexivity|].
  cbn. rewrite (proj2 (N.ltb_lt c 128) Hc). cbn.
  destruct (for_each _ t) as [bs|e]; [|discriminate].
  cbn in *. congruence.
Qed.

Lemma tokens_of_alphabet (s : basestring) (qs : list unicode) :
  (forall c bs, euc_kr_table c = Some bs -> Forall (fun x => x < 256) bs) ->
  tokens_of s = Ok qs ->
  Forall (Forall (fun c => c ∈ quoted_alphabet)) qs.
Proof.
  intros Htable. unfold tokens_of.
  destruct (split_space s) as [pieces|e] eqn:Hsplit; [|discriminate]. cbn.
  apply for_each_Forall. intros piece q Hpiece.
  assert (exists t, piece = Unicode t) as [t ->].
  { destruct s as [b|t]; cbn in Hsplit.
    - destruct (forallb _ b); [|discriminate]. injection Hsplit as <-.
      apply list_elem_of_fmap in Hpiece as (t & -> & _). eauto.
    - injection Hsplit as <-.
      apply list_elem_of_fmap in Hpiece as (t' & -> & _). eauto. }
  cbn. destruct (encode_euc_kr t) as [b|e] eqn:Hb; [|discriminate].
  cbn. intros [= <-]. apply quote_alphabet, (encode_euc_kr_bytes t b Htable Hb).
Qed.

End query_facts.

(** X11. Without a valid ISBN, the query that [_create_query] appends to the
    search URL is made of unreserved characters, [/], [%] and the [+] between
    tokens only: every other byte of a title or an author arrives as [%XX],
    so no space, [&], [=], [#] or [?] can break the URL. (The codec's table
    is taken to yield bytes.) *)
Theorem _create_query_quotes_the_query `{Host} (title : option basestring)
    (authors : option (list basestring)) (identifiers : gmap unicode unicode)
    (url : unicode) :
  (forall c bs, euc_kr_table c = Some bs -> Forall (fun x => x < 256) bs) ->
  check_isbn (identifiers !! u "isbn") = None ->
  _create_query title authors identifiers = Ok (Some url) ->
  exists query,
    url = u "http://www.yes24.com/searchcorner/Search?domain=BOOK&query=" ++ query
    /\ Forall (fun c => c ∈ quoted_alphabet ++ u "+") query
    /\ Forall (fun c => c ∉ u " &=#?") query.
Proof.
  intros Htable Hisbn. rewrite (_create_query_tokens _ _ _ Hisbn).
  destruct (if has_title title then _ else _) as [tt|e] eqn:Htt; [|discriminate].
  cbn [exc_bind].
  destruct (if has_authors authors then _ else _) as [at_|e] eqn:Hat;
    [|discriminate].
  cbn [exc_bind]. intros Hurl.
  assert (Forall (Forall (fun c => c ∈ quoted_alphabet)) (tt ++ at_)) as Htokens.
  { apply Forall_app. split.
    - destruct (has_title title);
        [exact (tokens_of_alphabet _ _ Htable Htt)|injection Htt as <-; constructor].
    - destruct (has_authors authors);
        [exact (tokens_of_alphabet _ _ Htable Hat)|injection Hat as <-; constructor]. }
  assert (Forall (fun c => c ∈ quoted_alphabet ++ u "+")
            (join (u "+") (tt ++ at_))) as Hquery.
  { apply join_Forall.
    - apply Forall_forall. intros c Hc. apply list_elem_of_In in Hc.
      vm_compute in Hc. destruct Hc as [<-|[]].
      apply elem_of_app. right. apply list_elem_of_In. vm_compute. tauto.
    - apply (Forall_impl _ _ _ Htokens). intros token Htoken.
      apply (Forall_impl _ _ _ Htoken). intros c Hc.
      apply elem_of_app. left. exact Hc. }
  exists (join (u "+") (tt ++ at_)). split; [|split; [exact Hquery|]].
  - destruct (tt ++ at_); [discriminate|]. injection Hurl as <-. reflexivity.
  - apply (Forall_impl _ _ _ Hquery). intros c Hc Hbad.
    apply list_elem_of_In in Hc. apply list_elem_of_In in Hbad.
    vm_compute in Hbad.
    repeat (destruct Hbad as [<-|Hbad];
            [vm_compute in Hc; repeat (destruct Hc as [Hc|Hc]; [discriminate|]);
             exact Hc|]).
    exact Hbad.
Qed.

Lemma example_table_yields_bytes (c : N) (bs : bytes) :
  example.hangul c = Some bs -> Forall (fun x => x < 256) bs.
Proof.
  intros Hbs.
  assert (bs ∈ [[177; 232]; [200; 198]; [196; 174]; [192; 199]; [179; 235]; [183; 161]])
    as Hin.
  { unfold example.hangul in Hbs.
    repeat match type of Hbs with
           | context [match ?x with _ => _ end] => destruct x; try discriminate
           end;
      injection Hbs as <-; apply list_elem_of_In; cbn; tauto. }
  apply list_elem_of_In in Hin. cbn in Hin.
  repeat (destruct Hin as [<-|Hin]; [repeat constructor; lia|]).
  destruct Hin.
Qed.

(** The title of the plugin's third test, with an ampersand added. *)
Lemma _create_query_quotes_the_query_witness :
  let title := Some (Unicode ([52860; 51032] ++ u " & " ++ [45432; 47000])) in
  exists query,
    @_create_query example.host title None ∅
    = Ok (Some (u "http://www.yes24.com/searchcorner/Search?domain=BOOK&query=" ++ query))
    /\ query = u "%C4%AE%C0%C7+%26+%B3%EB%B7%A1"
    /\ Forall (fun c => c ∉ u " &=#?") query.
Proof.
  intros title.
  pose (ids := (∅ : gmap unicode unicode)).
  destruct (@_create_query_quotes_the_query example.host title None ids
              (u "http://www.yes24.com/searchcorner/Search?domain=BOOK&query=%C4%AE%C0%C7+%26+%B3%EB%B7%A1")
              example_table_yields_bytes
              ltac:(vm_compute; reflexivity) ltac:(vm_compute; reflexivity))
    as (query & Hurl & _ & Hsafe).
  exists query.
  change (u "http://www.yes24.com/searchcorner/Search?domain=BOOK&query=%C4%AE%C0%C7+%26+%B3%EB%B7%A1")
    with (u "http://www.yes24.com/searchcorner/Search?domain=BOOK&query="
          ++ u "%C4%AE%C0%C7+%26+%B3%EB%B7%A1") in Hurl.
  apply app_inv_head in Hurl. subst query.
  split; [reflexivity|]. split; [reflexivity|exact Hsafe].
Defined.

(** X12. For a title of unreserved characters, [/] and spaces (and no
    valid ISBN, no authors), the query is the title itself with every space
    turned into [+]. *)
Theorem _create_query_of_a_plain_title `{Host} (t : unicode)
    (identifiers : gmap unicode unicode) :
  t <> [] ->
  Forall (fun c => c ∈ always_safe ++ u "/ ") t ->
  check_isbn (identifiers !! u "isbn") = None ->
  _create_query (Some (Unicode t)) None identifiers
  = Ok (Some (u "http://www.yes24.com/searchcorner/Search?domain=BOOK&query="
              ++ plus_for_space t)).
Proof.
  intros Hne Hplain Hisbn. rewrite (_create_query_tokens _ _ _ Hisbn).
  assert (tokens_of (Unicode t) = Ok (split 32 t)) as Htokens.
  { unfold tokens_of. cbn.
    assert (Forall (fun piece => quote_token (Unicode piece) = Ok piece) (split 32 t))
      as Hpieces.
    { pose proof (split_Forall _ 32 t Hplain) as Hin.
      pose proof (split_free_of_sep 32 t) as Hfree.
      rewrite Forall_forall in Hin, Hfree. apply Forall_forall.
      intros piece Hpiece. specialize (Hin piece Hpiece). specialize (Hfree piece Hpiece).
      assert (Forall (fun c => c ∈ always_safe ++ u "/") piece) as Hsafe.
      { rewrite Forall_forall in Hin. apply Forall_forall. intros c Hc.
        specialize (Hin c Hc). apply elem_of_app in Hin as [Hin|Hin];
          apply elem_of_app; [left; exact Hin|right].
        apply list_elem_of_In in Hin. vm_compute in Hin.
        destruct Hin as [<-|[<-|[]]]; [apply list_elem_of_In; vm_compute; tauto|].
        contradiction. }
      cbn. rewrite encode_euc_kr_ascii.
      - cbn. rewrite (quote_safe _ Hsafe). reflexivity.
      - apply (Forall_impl _ _ _ Hsafe). intros c Hc.
        apply list_elem_of_In in Hc. vm_compute in Hc.
        repeat (destruct Hc as [<-|Hc]; [reflexivity|]). destruct Hc. }
    exact (for_each_fmap Unicode quote_token _ Hpieces). }
  destruct t as [|c t]; [contradiction|].
  change (has_title (Some (Unicode (c :: t)))) with true.
  change (has_authors None) with false.
  change (default (Str []) (Some (Unicode (c :: t)))) with (Unicode (c :: t)).
  cbv iota. rewrite Htokens. cbn [exc_bind].
  rewrite app_nil_r, <- join_plus_split_space.
  pose proof (split_not_nil 32 (c :: t)) as Hsplit.
  destruct (split 32 (c :: t)); [contradiction|reflexivity].
Qed.

(** A title of the plugin's tests in Latin letters. *)
Lemma _create_query_of_a_plain_title_witness :
  @_create_query example.host (Some (Unicode (u "The Girl Hunters"))) None ∅
  = Ok (Some (u "http://www.yes24.com/searchcorner/Search?domain=BOOK&query=The+Girl+Hunters")).
Proof.
  pose (ids := (∅ : gmap unicode unicode)).
  apply (@_create_query_of_a_plain_title example.host (u "The Girl Hunters") ids);
    [discriminate| |reflexivity].
  apply Forall_forall. intros c Hc. apply list_elem_of_In in Hc.
  vm_compute in Hc.
  repeat (destruct Hc as [<-|Hc]; [apply list_elem_of_In; vm_compute; tauto|]).
  destruct Hc.
Defined.

(** ** What [identify] does and does not do *)

Lemma startswith_app (p s : list N) : startswith p (p ++ s) = true.
Proof.
  induction p as [|c p IH]; cbn; [reflexivity|].
  rewrite N.eqb_refl. exact IH.
Qed.

Lemma for_result_in_keeps (P : unicode -> Prop) (cells : list Cell)
    (matches : list unicode) :
  (forall href, P (BASE_URL ++ href)) ->
  Forall P matches -> Forall P (for_result_in cells matches).2.
Proof.
  intros Hbase. revert matches.
  induction cells as [|cell cells IH]; intros matches Hm; cbn; [exact Hm|].
  unfold bind, lift, modify. destruct (goods_name_href cell) as [|href hrefs]; cbn;
    [exact Hm|].
  specialize (IH (matches ++ [BASE_URL ++ href])).
  destruct (for_result_in cells (matches ++ [BASE_URL ++ href])) as [[[]|e] ms];
    cbn in *; apply IH; apply Forall_app; split; auto.
Qed.

(** X13. With a non-empty YES24 id among the identifiers, [identify] goes
    straight to the book's page: it builds no query (so title and authors
    cannot make it fail), opens nothing itself, and starts exactly one
    worker, with relevance 0, for [BROWSE_URL/id]; with abort set it starts
    none. For an id of digits, the YES24 id that the worker reads off its URL
    is the id given. *)
Theorem identify_by_yes24_id `{Host} (title : option basestring)
    (authors : option (list basestring)) (identifiers : gmap unicode unicode)
    (s : World) (id : unicode) :
  identifiers !! u "yes24" = Some id -> id <> [] ->
  let book := u "http://www.yes24.com/24/Goods/" ++ id in
  identify false title authors identifiers s
  = (Ok (ReturnNone, [Worker_init book 0]),
     world.write_log (Log INFO "  Matches are: " [VList [book]]) s)
  /\ identify true title authors identifiers s = (Ok (ReturnNone, []), s)
  /\ (forallb is_digit id = true -> found_id book = Some id).
Proof.
  intros Hid Hne book. destruct id as [|c id]; [contradiction|].
  unfold identify, bind, ret. rewrite Hid. cbn [truthy].
  split; [reflexivity|]. split; [reflexivity|].
  intros Hdigits. unfold found_id, parse_yes24_id, book.
  rewrite (search_then_digits_book_url _ _ _ (span_digits_all _ Hdigits));
    [reflexivity|discriminate].
Qed.

(** The third test of the plugin, with a title that no codec could encode. *)
Lemma identify_by_yes24_id_witness :
  let ids : gmap unicode unicode := {[u "yes24" := u "6185205"]} in
  fst (@identify example.host false (Some (Unicode [128512])) None ids example.bookshop)
  = Ok (ReturnNone, [Worker_init (u "http://www.yes24.com/24/Goods/6185205") 0]).
Proof.
  intros ids.
  destruct (@identify_by_yes24_id example.host (Some (Unicode [128512])) None ids
              example.bookshop (u "6185205") eq_refl) as [Hgo _];
    [discriminate|].
  rewrite Hgo. reflexivity.
Defined.

Ltac identify_cases :=
  repeat match goal with |- _ /\ _ => split end;
  try (let Hr := fresh in
       intros Hr; first [reflexivity | exfalso; apply Hr; reflexivity]);
  eauto; try discriminate.

Section identify_facts.
Context `{Host}.

Lemma workers_for_nil (matches : list unicode) :
  workers_for matches <> [] -> matches <> [].
Proof. intros Hw ->. apply Hw. reflexivity. Qed.

(** Workers are started on one path only. *)
Lemma identify_workers (abort_is_set : bool) (title : option basestring)
    (authors : option (list basestring)) (identifiers : gmap unicode unicode)
    (s s' : World) (r : returned) (workers : list Worker) :
  identify abort_is_set title authors identifiers s = (Ok (r, workers), s') ->
  workers <> [] ->
  abort_is_set = false
  /\ r = ReturnNone
  /\ exists matches,
       workers = workers_for matches
       /\ reaches_workers title authors identifiers s matches.
Proof.
  unfold identify, search, bind, try_except, lift, ret, modify,
    world.log_, world.open_novisit.
  destruct (identifiers !! u "yes24") as [[|c id]|] eqn:Hid; cbn [truthy].
  2:{ destruct abort_is_set; cbv beta iota; intros [= <- <- <-] Hw;
        [contradiction|].
      split; [reflexivity|]. split; [reflexivity|].
      eexists. split; [reflexivity|].
      apply (by_yes24_id _ _ _ _ _ (c :: id)); [exact Hid|discriminate|reflexivity]. }
  all: destruct (_create_query title authors identifiers) as [[q|]|e] eqn:Hq; cbn;
    [|intros [= <- <- <-] Hw; contradiction|discriminate].
  all: destruct (web s q) as [raw|e|e] eqn:Hweb; cbn;
    [|intros [= <- <- <-] Hw; contradiction|intros [= <- <- <-] Hw; contradiction].
  all: destruct (decode_euc_kr (strip_bytes raw)) as [|c' raw'] eqn:Hraw; cbn;
    [intros [= <- <- <-] Hw; contradiction|].
  all: destruct (fromstring (c' :: raw')) as [root|e] eqn:Hroot; cbn;
    [|intros [= <- <- <-] Hw; contradiction].
  all: destruct (_parse_search_results root []) as [[[]|e] matches] eqn:Hparse; cbn;
    [|intros [= <- <- <-] Hw; contradiction].
  all: destruct abort_is_set; cbn; intros [= <- <- <-] Hw; [contradiction|].
  all: split; [reflexivity|]; split; [reflexivity|].
  all: exists matches; split; [reflexivity|].
  all: apply (by_search _ _ _ _ _ q raw root); rewrite ?Hid, ?Hraw; auto;
    discriminate.
Qed.

(** What [identify] touches. *)
Lemma identify_effects (abort_is_set : bool)
    (title : option basestring) (authors : option (list basestring))
    (identifiers : gmap unicode unicode) (s : World) :
  match identify abort_is_set title authors identifiers s with
  | (Raise e, s') =>
      s' = s /\ _create_query title authors identifiers = Raise e
  | (Ok (r, workers), s') =>
      (r <> ReturnNone -> workers = [])
      /\ (opened s' = opened s
          \/ exists query,
               _create_query title authors identifiers = Ok (Some query)
               /\ opened s' = opened s ++ [query])
      /\ Forall (fun w => startswith BASE_URL (url w) = true) workers
      /\ result_queue s' = result_queue s
      /\ web s' = web s
  end.
Proof.
  assert (forall matches,
            Forall (fun m => startswith BASE_URL m = true) matches ->
            Forall (fun w => startswith BASE_URL (url w) = true) (workers_for matches))
    as Hworkers.
  { intros matches Hm. unfold workers_for. apply Forall_lookup.
    intros i w. rewrite list_lookup_imap.
    destruct (matches !! i) as [m|] eqn:Hi; [|discriminate].
    intros [= <-]. cbn. rewrite Forall_lookup in Hm. exact (Hm i m Hi). }
  unfold identify, search, bind, try_except, lift, ret, modify,
    world.log_, world.open_novisit.
  destruct (identifiers !! u "yes24") as [[|c id]|] eqn:Hid; cbn [truthy].
  2:{ destruct abort_is_set; cbn; identify_cases;
        apply Hworkers; repeat constructor. }
  all: destruct (_create_query title authors identifiers) as [[q|]|e]; cbn;
    [|identify_cases|auto].
  all: destruct (web s q) as [raw|e|e]; cbn; [|identify_cases|identify_cases].
  all: destruct (decode_euc_kr (strip_bytes raw)) as [|c' raw']; cbn;
    [identify_cases|].
  all: destruct (fromstring (c' :: raw')) as [root|e]; cbn; [|identify_cases].
  all: pose proof (for_result_in_keeps
                     (fun m => startswith BASE_URL m = true)
                     (goods_infogrp root) []
                     (fun href => startswith_app BASE_URL href)
                     (Forall_nil_2 _)) as Hprefix.
  all: unfold _parse_search_results.
  all: destruct (goods_infogrp root) as [|cell cells]; cbn [ret].
  all: try (destruct (for_result_in (cell :: cells) []) as [[[]|e] matches]).
  all: cbn in *; try (destruct abort_is_set; cbn); identify_cases;
    apply Hworkers; auto.
Qed.

End identify_facts.

(** X14. Whatever it is given, [identify] opens at most one URL itself,
    the search URL that [_create_query] made, and leaves the result queue
    and the site as they are. It starts workers on one path only, the one
    that returns [None] with abort unset: either a non-empty YES24 id was
    given, or [_create_query] returned a query, the site served it, the
    answer was not empty, it was parsed, and the listing was read to its
    end; the workers are then those of the matches. So after a missing
    query, a failed fetch, an empty or unparsable answer or a listing it
    cannot read there is no worker. Every worker it starts has a URL that
    begins with [http://www.yes24.com]. If it raises, the exception is that
    of [_create_query] and nothing has happened yet. *)
Theorem identify_is_careful `{Host} (abort_is_set : bool)
    (title : option basestring) (authors : option (list basestring))
    (identifiers : gmap unicode unicode) (s : World) :
  match identify abort_is_set title authors identifiers s with
  | (Raise e, s') =>
      s' = s /\ _create_query title authors identifiers = Raise e
  | (Ok (r, workers), s') =>
      (r <> ReturnNone -> workers = [])
      /\ (workers <> [] ->
          abort_is_set = false
          /\ exists matches,
               workers = workers_for matches
               /\ reaches_workers title authors identifiers s matches)
      /\ (truthy (identifiers !! u "yes24") = false ->
          (_create_query title authors identifiers = Ok None -> workers = [])
          /\ (forall query,
                _create_query title authors identifiers = Ok (Some query) ->
                (forall raw, web s query <> Body raw) -> workers = [])
          /\ (forall query raw,
                _create_query title authors identifiers = Ok (Some query) ->
                web s query = Body raw ->
                decode_euc_kr (strip_bytes raw) = []
                \/ raised (fromstring (decode_euc_kr (strip_bytes raw))) = true ->
                workers = [])
          /\ (forall query raw root,
                _create_query title authors identifiers = Ok (Some query) ->
                web s query = Body raw ->
                fromstring (decode_euc_kr (strip_bytes raw)) = Ok root ->
                raised (_parse_search_results root []).1 = true ->
                workers = []))
      /\ (opened s' = opened s
          \/ exists query,
               _create_query title authors identifiers = Ok (Some query)
               /\ opened s' = opened s ++ [query])
      /\ Forall (fun w => startswith BASE_URL (url w) = true) workers
      /\ result_queue s' = result_queue s
      /\ web s' = web s
  end.
Proof.
  pose proof (identify_effects abort_is_set title authors identifiers s) as Heffects.
  pose proof (identify_workers abort_is_set title authors identifiers s) as Hworkers.
  destruct (identify abort_is_set title authors identifiers s)
    as [[[r workers]|e] s']; [|exact Heffects].
  specialize (Hworkers s' r workers eq_refl).
  destruct Heffects as (Hr & Heffects).
  split; [exact Hr|]. split; [|split; [|exact Heffects]].
  - intros Hw. destruct (Hworkers Hw) as (Habort & _ & Hreach). auto.
  - assert (forall P : Prop,
              (forall matches,
                  reaches_workers title authors identifiers s matches -> P -> False) ->
              P -> workers = []) as Hnone.
    { intros P Hno HP. destruct workers as [|w ws]; [reflexivity|].
      destruct Hworkers as (_ & _ & matches & _ & Hreach); [discriminate|].
      destruct (Hno matches Hreach HP). }
    intros Hid. repeat split.
    + apply Hnone. intros matches [id Hyes Hne _|q raw root _ Hq _ _ _ _] Hnoq.
      * rewrite Hyes in Hid. destruct id; [contradiction|discriminate].
      * congruence.
    + intros query Hq. apply Hnone.
      intros matches [id Hyes Hne _|q raw root _ Hq' Hweb _ _ _] Hfetch.
      * rewrite Hyes in Hid. destruct id; [contradiction|discriminate].
      * assert (q = query) as -> by congruence. exact (Hfetch raw Hweb).
    + intros query raw Hq Hweb. apply Hnone.
      intros matches [id Hyes Hne _|q raw' root _ Hq' Hweb' Hraw Hroot _] Hbad.
      * rewrite Hyes in Hid. destruct id; [contradiction|discriminate].
      * assert (q = query) as -> by congruence.
        assert (raw' = raw) as -> by congruence.
        destruct Hbad as [Hempty|Hraised]; [contradiction|].
        rewrite Hroot in Hraised. discriminate.
    + intros query raw root Hq Hweb Hroot. apply Hnone.
      intros matches [id Hyes Hne _|q raw' root' _ Hq' Hweb' _ Hroot' Hparse] Hbad.
      * rewrite Hyes in Hid. destruct id; [contradiction|discriminate].
      * assert (q = query) as -> by congruence.
        assert (raw' = raw) as -> by congruence.
        assert (root' = root) as -> by congruence.
        rewrite Hparse in Hbad. discriminate.
Qed.

(** ** [download_cover] *)

Section download_facts.
Context `{Host}.

Lemma runs_keep_web (ws : list Worker) (s : World) : web (runs ws s) = web s.
Proof.
  revert s. induction ws as [|w ws IH]; intros s; cbn [runs]; [reflexivity|].
  rewrite IH, run_is_get_details.
  destruct (get_details_summary w s) as (w' & s' & Hrun & _ & Hweb & _).
  rewrite Hrun. exact Hweb.
Qed.

Lemma identify_keeps_web (abort_is_set : bool) (title : option basestring)
    (authors : option (list basestring)) (identifiers : gmap unicode unicode)
    (s : World) :
  web (snd (identify abort_is_set title authors identifiers s)) = web s.
Proof.
  unfold identify, search, bind, try_except, lift, ret, modify,
    world.log_, world.open_novisit.
  destruct (truthy (identifiers !! u "yes24")); cbn.
  { destruct abort_is_set; reflexivity. }
  destruct (_create_query title authors identifiers) as [[q|]|e]; cbn; auto.
  destruct (web s q) as [raw|e|e]; cbn; auto.
  destruct (decode_euc_kr (strip_bytes raw)) as [|c raw']; cbn; auto.
  destruct (fromstring (c :: raw')) as [root|e]; cbn; auto.
  destruct (_parse_search_results root []) as [[[]|e] matches]; cbn; auto.
  destruct abort_is_set; reflexivity.
Qed.

End download_facts.

(** X15. With a cover cached for the identifiers, [download_cover] runs no
    [identify]: it opens the cached URL and nothing else, and puts the data
    it reads on the result queue; when the fetch fails it logs that and puts
    nothing. With abort set it does nothing at all. *)
Theorem download_cover_uses_the_cache `{Host} (le : Metadata -> Metadata -> bool)
    (abort_in_identify abort_after_identify : bool)
    (title : option basestring) (authors : option (list basestring))
    (identifiers : gmap unicode unicode) (w : World) (covers : list bytes)
    (cached_url : unicode) :
  get_cached_cover_url identifiers w = Some cached_url ->
  download_cover le abort_in_identify abort_after_identify true
    title authors identifiers (w, covers) = (Ok tt, (w, covers))
  /\ download_cover le abort_in_identify abort_after_identify false
       title authors identifiers (w, covers)
     = let w1 :=
         world.note_open cached_url
           (world.write_log
              (Log INFO "Downloading cover from:" [VText cached_url]) w) in
       match web w cached_url with
       | Body cdata => (Ok tt, (w1, covers ++ [cdata]))
       | OpenFailed _ | ReadFailed _ =>
           (Ok tt,
            (world.write_log
               (Log EXCEPTION "Failed to download cover from:" [VText cached_url])
               w1,
             covers))
       end.
Proof.
  intros Hcached. unfold download_cover, bind, cover.plugin. cbn [fst].
  rewrite Hcached. unfold ret. split; [reflexivity|].
  unfold try_except, bind, lift, cover.on_plugin, cover.put, modify,
    world.log_, world.open_novisit.
  cbn. destruct (web w cached_url); reflexivity.
Qed.

(** After the worker of the first edition has run, its cover is fetched
    from the cache; the example site does not serve the image. *)
Lemma download_cover_uses_the_cache_witness :
  let ids : gmap unicode unicode := {[u "yes24" := u "2128248"]} in
  let w := (@run example.host (Worker_init example.atuan_url 0, example.bookshop)).2.2 in
  let after := (@download_cover example.host (fun _ _ => true) false false false
                  None None ids (w, [])).2 in
  opened after.1 = opened w ++ [u "http://image.yes24.com/goods/2128248/L"]
  /\ after.2 = [].
Proof.
  intros ids w after.
  destruct (@download_cover_uses_the_cache example.host (fun _ _ => true) false false
              None None ids w [] (u "http://image.yes24.com/goods/2128248/L") eq_refl)
    as [_ Hfetch].
  subst after. rewrite Hfetch. split; reflexivity.
Defined.

(** X16. Whatever happens, [download_cover] puts at most one cover on the
    result queue, and only data that the site serves under the URL it opened
    last, and never with abort set before the download. When it had to run
    [identify] and finds abort set afterwards, it puts nothing. *)
Theorem download_cover_puts_at_most_one `{Host} (le : Metadata -> Metadata -> bool)
    (abort_in_identify abort_after_identify abort_before_download : bool)
    (title : option basestring) (authors : option (list basestring))
    (identifiers : gmap unicode unicode) (w : World) (covers : list bytes) :
  let after := (download_cover le abort_in_identify abort_after_identify
                  abort_before_download title authors identifiers (w, covers)).2 in
  (after.2 = covers
   \/ exists url cdata,
        after.2 = covers ++ [cdata]
        /\ web w url = Body cdata
        /\ last (opened after.1) = Some url
        /\ abort_before_download = false)
  /\ (get_cached_cover_url identifiers w = None ->
      abort_after_identify = true -> after.2 = covers).
Proof.
  assert (forall (w0 : World) cached_url,
            web w0 = web w ->
            let after :=
              ((if abort_before_download then ret tt
                else
                  bind (cover.on_plugin
                          (world.log_ INFO "Downloading cover from:" [VText cached_url]))
                    (fun _ =>
                  try_except
                    (bind (cover.on_plugin (world.open_novisit cached_url))
                       (fun response => bind (lift response) (fun cdata => cover.put cdata)))
                    (fun _ =>
                       cover.on_plugin
                         (world.log_ EXCEPTION "Failed to download cover from:"
                            [VText cached_url])))) (w0, covers)).2 in
            after.2 = covers
            \/ exists url cdata,
                 after.2 = covers ++ [cdata]
                 /\ web w url = Body cdata
                 /\ last (opened after.1) = Some url
                 /\ abort_before_download = false) as Hfetch.
  { intros w0 cached_url Hweb.
    destruct abort_before_download; [left; reflexivity|].
    unfold try_except, bind, lift, cover.on_plugin, cover.put, modify,
      world.log_, world.open_novisit.
    cbn. rewrite Hweb. destruct (web w cached_url) as [cdata|e|e] eqn:Hurl; cbn;
      [|left; reflexivity|left; reflexivity].
    right. exists cached_url, cdata. repeat split; [exact Hurl|].
    apply last_snoc. }
  unfold download_cover, bind, cover.plugin. cbn [fst].
  destruct (get_cached_cover_url identifiers w) as [cached_url|] eqn:Hcached.
  - unfold ret at 1. cbv beta iota. split; [|discriminate].
    apply (Hfetch w cached_url eq_refl).
  - unfold cover.on_plugin, world.log_, modify, ret. cbv beta iota.
    pose proof (identify_keeps_web abort_in_identify title authors identifiers
                  (cover.new_queue
                     (world.write_log
                        (Log INFO "No cached cover found, running identify" []) w)))
      as Hweb.
    destruct (identify abort_in_identify title authors identifiers _)
      as [[[r workers]|e] w1]; cbn [fst snd] in *.
    2:{ split; [left; reflexivity|reflexivity]. }
    destruct abort_after_identify.
    + split; [left; reflexivity|reflexivity].
    + split; [|discriminate].
      destruct (first_cached _ _) as [cached_url|] eqn:Hfirst.
      * specialize (Hfetch (cover.new_queue (runs workers w1)) cached_url).
        unfold cover.on_plugin, world.log_, modify, ret in Hfetch.
        apply Hfetch. cbn. rewrite runs_keep_web. exact Hweb.
      * left. reflexivity.
Qed.
